(** * Obsidian-AI-AutoTag: a shallow embedding of [main.py]

    The script walks a directory of markdown notes, reads the [Tags:] line of
    each note, asks a language-model backend for more tags when fewer than
    nine are present, and rewrites the note.  This file embeds the functions
    of [main.py] and proves or refutes the statements of the specification
    about them.

    Python [str] values are sequences of Unicode code points: a character is
    an [N], a string a [list N].  String literals are written [U "text"]. *)

From Stdlib Require Import String Ascii NArith QArith.
From stdpp Require Import base option list gmap.

Local Open Scope N_scope.
Local Open Scope list_scope.

Abbreviation char := N.
Abbreviation str := (list N).

(** The code points of an ASCII literal. *)
Definition U (s : string) : str := map N_of_ascii (list_ascii_of_string s).

(** ** Python string primitives *)
Module Py.

Definition nl : char := 10.        (* '\n' *)
Definition space : char := 32.     (* ' '  *)
Definition hash : char := 35.      (* '#'  *)
Definition slash : char := 47.     (* '/'  *)
Definition dot : char := 46.       (* '.'  *)
Definition backslash : char := 92. (* '\\' *)

(** [str.isspace] on one character (CPython's [Py_UNICODE_ISSPACE]); the
    same predicate decides [\s] in a [re] pattern over [str] and the
    characters removed by [str.strip()] and [str.split()]. *)
Definition isspace (c : char) : bool :=
  ((9 <=? c) && (c <=? 13)) || ((28 <=? c) && (c <=? 32))
  || (c =? 133) || (c =? 160) || (c =? 5760)
  || ((8192 <=? c) && (c <=? 8202))
  || (c =? 8232) || (c =? 8233) || (c =? 8239) || (c =? 8287)
  || (c =? 12288).

Definition eqb (a b : str) : bool := bool_decide (a = b).

(** [s.startswith(p)] *)
Fixpoint startswith (s p : str) {struct p} : bool :=
  match p, s with
  | [], _ => true
  | _ :: _, [] => false
  | a :: p', b :: s' => (b =? a) && startswith s' p'
  end.

(** [s.endswith(p)] *)
Definition endswith (s p : str) : bool := startswith (rev s) (rev p).

Fixpoint lstrip_by (f : char -> bool) (s : str) : str :=
  match s with
  | c :: s' => if f c then lstrip_by f s' else s
  | [] => []
  end.

Definition rstrip_by (f : char -> bool) (s : str) : str :=
  rev (lstrip_by f (rev s)).

Definition strip_by (f : char -> bool) (s : str) : str :=
  lstrip_by f (rstrip_by f s).

(** [s.strip()] *)
Definition strip (s : str) : str := strip_by isspace s.

(** [s.strip(chars)] *)
Definition strip_chars (chars s : str) : str :=
  strip_by (fun c => existsb (N.eqb c) chars) s.

(** [s.split(sep)] for a one-character separator: one piece more than
    there are separators, empty pieces kept. *)
Fixpoint split (sep : char) (s : str) : list str :=
  match s with
  | [] => [[]]
  | c :: s' =>
      if c =? sep then [] :: split sep s'
      else match split sep s' with
           | p :: ps => (c :: p) :: ps
           | [] => [[c]]
           end
  end.

(** [s.split()]: the maximal runs of non-whitespace characters.  [cur] is
    the run being read, in reverse. *)
Fixpoint split_ws_from (cur : str) (s : str) : list str :=
  match s with
  | [] => match cur with [] => [] | _ => [rev cur] end
  | c :: s' =>
      if isspace c
      then match cur with
           | [] => split_ws_from [] s'
           | _ => rev cur :: split_ws_from [] s'
           end
      else split_ws_from (c :: cur) s'
  end.

Definition split_ws (s : str) : list str := split_ws_from [] s.

(** [sep.join(l)] *)
Fixpoint join (sep : str) (l : list str) : str :=
  match l with
  | [] => []
  | [x] => x
  | x :: l' => x ++ sep ++ join sep l'
  end.

(** [x in l] for a list of strings *)
Definition contains (l : list str) (x : str) : bool := existsb (eqb x) l.

(** Truthiness of a string and of a list: non-empty. *)
Definition truthy {A} (l : list A) : bool :=
  match l with [] => false | _ => true end.

(** The surrogate code points U+D800 to U+DFFF.  A [str] may hold one on its
    own (the JSON text ["\ud800"] decodes to one), but UTF-8 has no
    encoding for it. *)
Definition is_surrogate (c : char) : bool := (55296 <=? c) && (c <=? 57343).

(** [s.encode('utf-8')] succeeds. *)
Definition encodable (s : str) : bool :=
  forallb (fun c => negb (is_surrogate c)) s.

(** [posixpath.join(a, b)] *)
Definition path_join (a b : str) : str :=
  if startswith b [slash] then b
  else if negb (truthy a) || endswith a [slash] then a ++ b
  else a ++ slash :: b.

End Py.

(** ** Exceptions and results *)

(** The Python exceptions that the modelled code can raise. *)
Inductive exn :=
| FileNotFoundError
| PermissionError
| ZeroDivisionError
| ConnectionError             (* raised by [requests.post] *)
| JSONDecodeError
| KeyError
| TypeError
| ReError                     (* [re.error], or [IndexError] for an unknown
                                 group name, from the replacement template *)
| UnicodeEncodeError.         (* raised by [file.write] *)

Inductive result (A : Type) :=
| Ok (a : A)
| Raise (e : exn).
Arguments Ok {A} a.
Arguments Raise {A} e.

Definition rmap {A B} (f : A -> B) (r : result A) : result B :=
  match r with Ok a => Ok (f a) | Raise e => Raise e end.

Definition rbind {A B} (r : result A) (k : A -> result B) : result B :=
  match r with Ok a => k a | Raise e => Raise e end.

(** ** The fragment of Python's [re] that the script uses *)
Module Re.
Import Py.

(** Pattern items.  The script's only pattern is [\nTags:\s*(.*?)$], compiled
    with [re.MULTILINE]: literals, a greedy star over a character class, a
    captured lazy star over a character class, and the end-of-line anchor. *)
Inductive item :=
| Literal (c : char)
| Star (cls : char -> bool)          (* cls*    , greedy *)
| GroupLazyStar (cls : char -> bool) (* (cls*?) , lazy, capturing *)
| EndOfLine.                         (* $ under re.MULTILINE *)

(** [.] without [re.DOTALL]: any character but the newline. *)
Definition any (c : char) : bool := negb (c =? nl).

(** [$] under [re.MULTILINE]: at the end of the string or before a newline. *)
Definition at_end_of_line (s : str) : bool :=
  match s with
  | [] => true
  | c :: _ => c =? nl
  end.

(** A match found at the start of a string: how many characters it spans and
    the text of the capture group. *)
Record found := { span : nat; group1 : str }.

Definition advance (r : option found) : option found :=
  match r with
  | Some m => Some {| span := S (span m); group1 := group1 m |}
  | None => None
  end.

Definition capture (c : char) (r : option found) : option found :=
  match r with
  | Some m => Some {| span := S (span m); group1 := c :: group1 m |}
  | None => None
  end.

(** The greedy star first tries to take one more character and falls back
    to taking none; [k] matches the rest of the pattern. *)
Fixpoint greedy_star (cls : char -> bool) (k : str -> option found) (s : str)
  : option found :=
  match s with
  | x :: s' =>
      if cls x
      then match advance (greedy_star cls k s') with
           | Some m => Some m
           | None => k s
           end
      else k s
  | [] => k s
  end.

(** The lazy star first tries the rest of the pattern and takes one more
    character only when that fails; what it takes is the capture group. *)
Fixpoint lazy_star (cls : char -> bool) (k : str -> option found) (s : str)
  : option found :=
  match k s with
  | Some m => Some {| span := span m; group1 := [] |}
  | None =>
      match s with
      | x :: s' => if cls x then capture x (lazy_star cls k s') else None
      | [] => None
      end
  end.

(** Backtracking match of the items [p] at the start of [s]. *)
Fixpoint match_here (p : list item) (s : str) {struct p} : option found :=
  match p with
  | [] => Some {| span := 0; group1 := [] |}
  | Literal c :: p' =>
      match s with
      | x :: s' => if x =? c then advance (match_here p' s') else None
      | [] => None
      end
  | EndOfLine :: p' =>
      if at_end_of_line s then match_here p' s else None
  | Star cls :: p' => greedy_star cls (match_here p') s
  | GroupLazyStar cls :: p' => lazy_star cls (match_here p') s
  end.

(** [re.search]: the leftmost position at which the pattern matches, with the
    match found there. *)
Fixpoint search (p : list item) (s : str) : option (nat * found) :=
  match match_here p s with
  | Some m => Some (0%nat, m)
  | None =>
      match s with
      | [] => None
      | _ :: s' =>
          match search p s' with
          | Some (i, m) => Some (S i, m)
          | None => None
          end
      end
  end.

(** [r'\nTags:\s*(.*?)$'] *)
Definition tags_pattern : list item :=
  map Literal (nl :: U "Tags:") ++ [Star isspace; GroupLazyStar any; EndOfLine].

(** *** Replacement templates

    [re.sub] parses its replacement string before it substitutes (CPython
    3.12, [re._parser.parse_template]): a backslash introduces a group
    reference, an octal escape or a character escape, and a backslash before
    any other ASCII letter, or at the end, is an error. *)

Inductive token :=
| Plain (c : char)
| Escaped (c : char).   (* a backslash and the character after it *)

Fixpoint tokenize (s : str) : result (list token) :=
  match s with
  | [] => Ok []
  | c :: s' =>
      if c =? backslash
      then match s' with
           | [] => Raise ReError          (* bad escape (end of pattern) *)
           | d :: s'' => rmap (cons (Escaped d)) (tokenize s'')
           end
      else rmap (cons (Plain c)) (tokenize s')
  end.

Inductive piece :=
| Chr (c : char)
| GroupRef (index : N).

Definition is_digit (c : char) : bool := (48 <=? c) && (c <=? 57).
Definition is_octdigit (c : char) : bool := (48 <=? c) && (c <=? 55).
Definition is_ascii_letter (c : char) : bool :=
  ((65 <=? c) && (c <=? 90)) || ((97 <=? c) && (c <=? 122)).
Definition digit (c : char) : N := c - 48.

(** [ESCAPES]: the character escapes [\a \b \f \n \r \t \v \\]. *)
Definition escapes (c : char) : option char :=
  if c =? 97 then Some 7 else if c =? 98 then Some 8
  else if c =? 102 then Some 12 else if c =? 110 then Some 10
  else if c =? 114 then Some 13 else if c =? 116 then Some 9
  else if c =? 118 then Some 11 else if c =? 92 then Some 92
  else None.

(** The group a name in [\g<name>] denotes: the pattern has no named group,
    so the name has to be a decimal number. *)
Definition group_index (name : str) : option N :=
  if truthy name && forallb is_digit name
  then Some (fold_left (fun v c => 10 * v + digit c) name 0)
  else None.

(** [addgroup]: a reference to a group the pattern does not have is an
    error. *)
Definition addgroup (groups index : N) (rest : result (list piece))
  : result (list piece) :=
  if index <=? groups then rmap (cons (GroupRef index)) rest else Raise ReError.

(** The parser proper.  [name] is [Some acc] while the characters of a group
    name are being read ([acc] holds them in reverse). *)
Fixpoint parse_pieces (groups : N) (name : option str) (ts : list token)
  {struct ts} : result (list piece) :=
  match name with
  | Some acc =>
      match ts with
      | [] => Raise ReError               (* missing >, unterminated name *)
      | Plain c :: ts' =>
          if c =? 62                      (* > *)
          then match group_index (rev acc) with
               | Some i => addgroup groups i (parse_pieces groups None ts')
               | None => Raise ReError
               end
          else parse_pieces groups (Some (c :: acc)) ts'
      | Escaped c :: ts' =>
          parse_pieces groups (Some (c :: backslash :: acc)) ts'
      end
  | None =>
      match ts with
      | [] => Ok []
      | Plain c :: ts' => rmap (cons (Chr c)) (parse_pieces groups None ts')
      | Escaped c :: ts' =>
          if c =? 103 then                (* \g<name> *)
            match ts' with
            | Plain d :: ts1 =>
                if d =? 60 then parse_pieces groups (Some []) ts1
                else Raise ReError        (* missing < *)
            | _ => Raise ReError
            end
          else if c =? 48 then            (* \0, \0o, \0oo: octal escape *)
            match ts' with
            | Plain d1 :: ts1 =>
                if is_octdigit d1 then
                  match ts1 with
                  | Plain d2 :: ts2 =>
                      if is_octdigit d2
                      then rmap (cons (Chr (N.land (8 * digit d1 + digit d2) 255)))
                             (parse_pieces groups None ts2)
                      else rmap (cons (Chr (digit d1)))
                             (parse_pieces groups None ts1)
                  | _ => rmap (cons (Chr (digit d1)))
                           (parse_pieces groups None ts1)
                  end
                else rmap (cons (Chr 0)) (parse_pieces groups None ts')
            | _ => rmap (cons (Chr 0)) (parse_pieces groups None ts')
            end
          else if is_digit c then         (* \1 .. \99, or octal \ooo *)
            match ts' with
            | Plain d2 :: ts1 =>
                if is_digit d2 then
                  match ts1 with
                  | Plain d3 :: ts2 =>
                      if is_octdigit c && is_octdigit d2 && is_octdigit d3
                      then let v := 64 * digit c + 8 * digit d2 + digit d3 in
                           if 255 <? v then Raise ReError
                           else rmap (cons (Chr v)) (parse_pieces groups None ts2)
                      else addgroup groups (10 * digit c + digit d2)
                             (parse_pieces groups None ts1)
                  | _ => addgroup groups (10 * digit c + digit d2)
                           (parse_pieces groups None ts1)
                  end
                else addgroup groups (digit c) (parse_pieces groups None ts')
            | _ => addgroup groups (digit c) (parse_pieces groups None ts')
            end
          else
            match escapes c with
            | Some e => rmap (cons (Chr e)) (parse_pieces groups None ts')
            | None =>
                if is_ascii_letter c then Raise ReError   (* bad escape *)
                else rmap (fun r => Chr backslash :: Chr c :: r)
                       (parse_pieces groups None ts')
            end
      end
  end.

Definition parse_template (groups : N) (repl : str) : result (list piece) :=
  rbind (tokenize repl) (parse_pieces groups None).

(** The text a parsed template stands for at one match: [whole] is group 0,
    the matched text. *)
Definition expand (pieces : list piece) (whole g1 : str) : str :=
  concat (map (fun p => match p with
                        | Chr c => [c]
                        | GroupRef i => if i =? 0 then whole else g1
                        end) pieces).

(** Left-to-right replacement of the non-overlapping matches.  After a match
    of [n] characters the scan resumes behind it: [skip] counts the matched
    characters still to pass over.  (A pattern that begins with a literal,
    like [tags_pattern], has no empty match; for an empty match the
    replacement is inserted and the scan moves on by one character.) *)
Fixpoint sub_from (p : list item) (pieces : list piece) (s : str) (skip : nat)
  {struct s} : str :=
  match skip with
  | S k =>
      match s with
      | [] => []
      | _ :: s' => sub_from p pieces s' k
      end
  | O =>
      match match_here p s with
      | Some m =>
          let r := expand pieces (take (span m) s) (group1 m) in
          match s with
          | [] => r
          | x :: s' =>
              match span m with
              | O => r ++ x :: sub_from p pieces s' 0
              | S k => r ++ sub_from p pieces s' k
              end
          end
      | None =>
          match s with
          | [] => []
          | x :: s' => x :: sub_from p pieces s' 0
          end
      end
  end.

(** [re.sub(pattern, repl, s)] for a pattern with [groups] capture groups. *)
Definition sub (p : list item) (groups : N) (repl s : str) : result str :=
  rmap (fun pieces => sub_from p pieces s 0) (parse_template groups repl).

End Re.

(** ** The world the script runs in *)

(** A regular file: its text as [read()] returns it, and whether it can be
    opened for reading and for writing.  Files that are not valid UTF-8 are
    not modelled. *)
Record disk_file := {
  data : str;
  readable : bool;
  writable : bool
}.

(** A directory as [os.scandir] lists it: its name in the parent directory
    (unused at the root of a walk), its sub-directories and the names of its
    files.  Symbolic links are not modelled. *)
#[local] Set Warnings "-register-all".
Inductive dirtree :=
| Dir (name : str) (subdirs : list dirtree) (files : list str).
#[local] Set Warnings "register-all".

(** What the decoding of a reply body gives: the generated text with the
    number that the body reports as its token count (0 when it reports
    none), or the exception that the JSON decoder, the indexing of the
    decoded value or the addition of the count raises.  The count is
    whatever number the reply carries: it may be negative and it may have a
    fraction; like the times it is taken as an exact rational.  A count that
    is no number makes the addition of lines 158 and 230 raise [TypeError],
    which no handler catches: that is the body [Undecodable TypeError]. *)
Inductive body :=
| Generated (text : str) (tokens : Q)
| Undecodable (e : exn).

(** One answer to [requests.post].  The request (prompt, model, headers) is
    not modelled: what the backend answers is given with the world. *)
Inductive reply :=
| NoConnection
| Response (status_code : N) (b : body).

(** The lines the script prints, without their colours. *)
Inductive line :=
| ScanningDirectory (directory : str)
| ProcessingFile (file_path : str)
| LessThan9ExistingTags
| WarningMoreThan10Tags
| UpdatedTags (tag_string : str)
| FailedToGenerateTags
| ExceededRetryLimit
| ExistingTagsFound (joined : str)
| SendingRequestToOllama
| ReceivedTagsFromOllama
| ErrorDecodingOllama (e : exn)
| ErrorWithOllama (status_code : N)
| SendingRequestToClaude
| ReceivedTagsFromClaude
| ErrorWithClaude (status_code : N)
| RunStatisticsHeader
| TotalFilesProcessed (n : nat)
| FilesWithTagsUpdated (n : nat)
| FilesWithExistingTags (n : nat)
| FilesThatFailed (n : nat)
| PerformanceStatisticsHeader
| TotalRunTime (seconds : Q)
| AverageTimePerFile (seconds : Q)
| TotalApiQueries (n : N)
| TotalTokensUsed (n : Q)
| EstimatedApiCost (dollars : Q)
| UsingOllamaLocally.

Record world := {
  fs : gmap str disk_file;     (* the regular files, by path *)
  dirs : gmap str dirtree;     (* the directories [os.walk] can list, by path *)
  backend : list reply;        (* the answers of the backend still to come *)
  use_ollama : bool;           (* configuration, read once at start-up *)
  api_queries : N;             (* global counter *)
  total_tokens : Q;            (* global counter *)
  start_time : Q;              (* [time.time()] at start-up *)
  now : Q;                     (* what [time.time()] returns *)
  stdout : list line
}.

Definition set_fs (f : gmap str disk_file) (w : world) : world :=
  {| fs := f; dirs := dirs w; backend := backend w;
     use_ollama := use_ollama w; api_queries := api_queries w;
     total_tokens := total_tokens w; start_time := start_time w;
     now := now w; stdout := stdout w |}.

Definition set_backend (b : list reply) (w : world) : world :=
  {| fs := fs w; dirs := dirs w; backend := b;
     use_ollama := use_ollama w; api_queries := api_queries w;
     total_tokens := total_tokens w; start_time := start_time w;
     now := now w; stdout := stdout w |}.

Definition set_api_queries (n : N) (w : world) : world :=
  {| fs := fs w; dirs := dirs w; backend := backend w;
     use_ollama := use_ollama w; api_queries := n;
     total_tokens := total_tokens w; start_time := start_time w;
     now := now w; stdout := stdout w |}.

Definition set_total_tokens (n : Q) (w : world) : world :=
  {| fs := fs w; dirs := dirs w; backend := backend w;
     use_ollama := use_ollama w; api_queries := api_queries w;
     total_tokens := n; start_time := start_time w;
     now := now w; stdout := stdout w |}.

Definition set_stdout (l : list line) (w : world) : world :=
  {| fs := fs w; dirs := dirs w; backend := backend w;
     use_ollama := use_ollama w; api_queries := api_queries w;
     total_tokens := total_tokens w; start_time := start_time w;
     now := now w; stdout := l |}.

(** ** Computations: state passing with exceptions

    A raised exception keeps the effects that came before it. *)
Definition M (A : Type) : Type := world -> result A * world.

Definition ret {A} (a : A) : M A := fun w => (Ok a, w).

Definition raise {A} (e : exn) : M A := fun w => (Raise e, w).

Definition bind {A B} (m : M A) (k : A -> M B) : M B :=
  fun w =>
    match m w with
    | (Ok a, w') => k a w'
    | (Raise e, w') => (Raise e, w')
    end.

Declare Scope py_scope.
Delimit Scope py_scope with py.
Notation "x <- m ;; k" := (bind m (fun x => k))
  (at level 100, m at next level, right associativity) : py_scope.
Notation "m ;; k" := (bind m (fun _ => k))
  (at level 100, right associativity) : py_scope.
Local Open Scope py_scope.

(** [print(...)]: one more line on the output.  The console is taken to
    accept every text. *)
Definition print (l : line) : M unit :=
  fun w => (Ok tt, set_stdout (stdout w ++ [l]) w).

(** [open(path, 'r', encoding='utf-8').read()] *)
Definition read_file (path : str) : M str :=
  fun w =>
    match fs w !! path with
    | None => (Raise FileNotFoundError, w)
    | Some f =>
        if readable f then (Ok (data f), w) else (Raise PermissionError, w)
    end.

(** [file.write(text)] on a file that [open(path, 'w')] has just emptied
    (line 78, and the close at the end of the [with]): the text is encoded
    before anything is written, so a text that UTF-8 cannot encode raises
    and leaves the file empty.  [r] tells whether the file can be read. *)
Definition truncate_and_write (path : str) (r : bool) (text : str) : M unit :=
  fun w =>
    if Py.encodable text
    then (Ok tt, set_fs (<[path := {| data := text; readable := r;
                                      writable := true |}]> (fs w)) w)
    else (Raise UnicodeEncodeError,
          set_fs (<[path := {| data := []; readable := r;
                               writable := true |}]> (fs w)) w).

(** [with open(path, 'w', encoding='utf-8') as file: file.write(text)]
    (lines 77-78).  A file that may not be written makes [open] raise, and
    nothing is changed; otherwise [open] empties the file, or creates it
    when the path names none yet, and the text is written.  Faults of the
    device (a full disk) are not modelled. *)
Definition write_file (path text : str) : M unit :=
  fun w =>
    match fs w !! path with
    | None => truncate_and_write path true text w
    | Some f =>
        if writable f
        then truncate_and_write path (readable f) text w
        else (Raise PermissionError, w)
    end.

(** [requests.post(...)]: the next answer of the backend.  A backend with
    no answer left refuses the connection. *)
Definition requests_post : M (N * body) :=
  fun w =>
    match backend w with
    | [] => (Raise ConnectionError, w)
    | NoConnection :: rest => (Raise ConnectionError, set_backend rest w)
    | Response status_code b :: rest => (Ok (status_code, b), set_backend rest w)
    end.

Definition incr_api_queries : M unit :=
  fun w => (Ok tt, set_api_queries (api_queries w + 1) w).

Definition add_total_tokens (n : Q) : M unit :=
  fun w => (Ok tt, set_total_tokens (Qplus (total_tokens w) n) w).

Definition get_use_ollama : M bool := fun w => (Ok (use_ollama w), w).

(** ** The script *)
Import Py.

(** The outcome of [process_file]: the dictionary
    [{"file": ..., "status": ..., "tags": ...}]. *)
Inductive status_t := tags_updated | existing_tags | failed.

Record outcome := {
  file : str;
  status : status_t;
  tags : list str
}.

(** [extract_existing_tags(content)] (lines 237-244). *)
Definition extract_existing_tags (content : str) : list str :=
  match Re.search Re.tags_pattern content with
  | Some (_, m) =>
      map strip
        (List.filter (fun tag => truthy (strip tag)) (split hash (Re.group1 m)))
  | None => []
  end.

(** The body of [get_suggested_tags_ollama] after the request (lines
    146-167): the tokens of the generated text, each stripped of [#] and
    blanks at both ends and prefixed with [#].  The two decoding errors the
    [try] names become [None]; any other propagates. *)
Definition ollama_tag (tag : str) : str :=
  let tag := strip_chars (U "# ") tag in
  if startswith tag [hash] then tag else hash :: tag.

Definition get_suggested_tags_ollama (content : str) : M (option (list str)) :=
  print SendingRequestToOllama ;;
  incr_api_queries ;;
  r <- requests_post ;;
  let '(status_code, b) := r in
  if status_code =? 200 then
    match b with
    | Generated response_text tokens =>
        let tags := split_ws (strip response_text) in
        let corrected_tags := map ollama_tag tags in
        add_total_tokens tokens ;;
        print ReceivedTagsFromOllama ;;
        ret (Some corrected_tags)
    | Undecodable e =>
        match e with
        | JSONDecodeError | KeyError =>
            print (ErrorDecodingOllama e) ;; ret None
        | _ => raise e
        end
    end
  else
    print (ErrorWithOllama status_code) ;; ret None.

(** [get_suggested_tags_claude] (lines 170-235): the whitespace-separated
    tokens of the generated text as they come.  Nothing is caught here. *)
Definition get_suggested_tags_claude (content : str) : M (option (list str)) :=
  print SendingRequestToClaude ;;
  incr_api_queries ;;
  r <- requests_post ;;
  let '(status_code, b) := r in
  if status_code =? 200 then
    match b with
    | Generated text tokens =>
        let tags := split_ws (strip text) in
        add_total_tokens tokens ;;
        print ReceivedTagsFromClaude ;;
        ret (Some tags)
    | Undecodable e => raise e
    end
  else
    print (ErrorWithClaude status_code) ;; ret None.

(** [get_suggested_tags] (lines 90-97). *)
Definition get_suggested_tags (content : str) : M (option (list str)) :=
  ollama <- get_use_ollama ;;
  if ollama then get_suggested_tags_ollama content
  else get_suggested_tags_claude content.

(** Lines 66-69: a tag that does not start with [#] is trimmed and gets
    one. *)
Definition correct_tag (tag : str) : str :=
  if startswith tag [hash] then tag else hash :: strip tag.

(** The merge of [process_file] (lines 62-71): the existing tags, then the
    suggested tags that are not among them, each corrected, cut to 10. *)
Definition merge_tags (existing suggested : list str) : list str :=
  let all_tags :=
    existing ++ List.filter (fun tag => negb (contains existing tag)) suggested in
  let corrected_tags := map correct_tag all_tags in
  take 10 corrected_tags.

(** [f"\nTags: {tag_string}"] *)
Definition tags_line (tag_string : str) : str :=
  nl :: U "Tags: " ++ tag_string.

(** Lines 73-76: the new text of the note.  [re.sub] replaces every match of
    the pattern, and may reject the replacement text. *)
Definition rewrite_content (content tag_string : str) : result str :=
  match Re.search Re.tags_pattern content with
  | Some _ => Re.sub Re.tags_pattern 1 (tags_line tag_string) content
  | None => Ok (content ++ tags_line tag_string)
  end.

Definition lift {A} (r : result A) : M A := fun w => (r, w).

(** Lines 62-80: merge, rewrite the text, write it back. *)
Definition merge_and_write (file_path content : str)
  (existing suggested : list str) : M outcome :=
  let corrected_tags := merge_tags existing suggested in
  let tag_string := join [space] corrected_tags in
  new_content <- lift (rewrite_content content tag_string) ;;
  write_file file_path new_content ;;
  print (UpdatedTags tag_string) ;;
  ret {| file := file_path; status := tags_updated; tags := corrected_tags |}.

(** The [while retry_count < retry_limit] loop (lines 55-85); [remaining] is
    [retry_limit - retry_count]. *)
Fixpoint retry_loop (file_path content : str) (existing : list str)
  (remaining : nat) : M outcome :=
  match remaining with
  | O =>
      print ExceededRetryLimit ;;
      ret {| file := file_path; status := failed; tags := [] |}
  | S remaining' =>
      suggested_tags <- get_suggested_tags content ;;
      match suggested_tags with
      | Some ((_ :: _) as suggested) =>
          if (10 <? length suggested)%nat then
            print WarningMoreThan10Tags ;;
            retry_loop file_path content existing remaining'
          else merge_and_write file_path content existing suggested
      | _ =>
          print FailedToGenerateTags ;;
          ret {| file := file_path; status := failed; tags := [] |}
      end
  end.

(** [process_file(file_path, retry_limit=3)] (lines 42-88). *)
Definition process_file (file_path : str) (retry_limit : nat) : M outcome :=
  print (ProcessingFile file_path) ;;
  content <- read_file file_path ;;
  let existing := extract_existing_tags content in
  if (length existing <? 9)%nat then
    print LessThan9ExistingTags ;;
    retry_loop file_path content existing retry_limit
  else
    print (ExistingTagsFound (join [space] existing)) ;;
    ret {| file := file_path; status := existing_tags; tags := existing |}.

Definition default_retry_limit : nat := 3.

(** The directory names that [scan_directory] does not descend into
    (line 33). *)
Definition excluded_dirs : list str :=
  [U "zTemplates"; U "cheat-sheets-main"; U "zz_Attachments";
   U "00 Monthly Tasks"; U "BMO"; U "zz_Archive"].

Definition keep_dir (d : str) : bool :=
  negb (startswith d [dot]) && negb (contains excluded_dirs d).

(** Python's true division of a float by an integer. *)
Definition truediv (x : Q) (n : nat) : M Q :=
  match n with
  | O => raise ZeroDivisionError
  | S _ => ret (Qdiv x (inject_Z (Z.of_nat n)))
  end.

Definition status_eqb (a b : status_t) : bool :=
  match a, b with
  | tags_updated, tags_updated | existing_tags, existing_tags
  | failed, failed => true
  | _, _ => false
  end.

(** [sum(1 for file in processed_files if file['status'] == s)] *)
Definition count_status (s : status_t) (processed_files : list outcome) : nat :=
  length (List.filter (fun o => status_eqb (status o) s) processed_files).

Definition run_time_of (w : world) : Q := Qminus (now w) (start_time w).

(** [print_statistics(processed_files)] (lines 246-275).  Floats are taken
    as exact rationals; their formatting is not modelled. *)
Definition print_statistics (processed_files : list outcome) : M unit :=
  let total_files := length processed_files in
  run_time <- (fun w => (Ok (run_time_of w), w)) ;;
  print RunStatisticsHeader ;;
  print (TotalFilesProcessed total_files) ;;
  print (FilesWithTagsUpdated (count_status tags_updated processed_files)) ;;
  print (FilesWithExistingTags (count_status existing_tags processed_files)) ;;
  print (FilesThatFailed (count_status failed processed_files)) ;;
  print PerformanceStatisticsHeader ;;
  print (TotalRunTime run_time) ;;
  average <- truediv run_time total_files ;;
  print (AverageTimePerFile average) ;;
  queries <- (fun w => (Ok (api_queries w), w)) ;;
  print (TotalApiQueries queries) ;;
  tokens <- (fun w => (Ok (total_tokens w), w)) ;;
  print (TotalTokensUsed tokens) ;;
  ollama <- get_use_ollama ;;
  if negb ollama then
    let estimated_cost :=
      Qmult (Qdiv tokens (inject_Z 1000)) (Qmake 8 100) in
    print (EstimatedApiCost estimated_cost)
  else print UsingOllamaLocally.

(** The inner loop of [scan_directory] (lines 34-38): the markdown files of
    one directory, in the order listed. *)
Fixpoint process_files (root : str) (files : list str)
  (processed_files : list outcome) : M (list outcome) :=
  match files with
  | [] => ret processed_files
  | f :: rest =>
      if endswith f (U ".md") then
        result <- process_file (path_join root f) default_retry_limit ;;
        process_files root rest (processed_files ++ [result])
      else process_files root rest processed_files
  end.

(** The loop over [os.walk(directory)] (lines 32-38), top-down: the files of
    a directory first, then the sub-directories that the filter of line 33
    keeps, each under its joined path. *)
Fixpoint walk (t : dirtree) (root : str) (processed_files : list outcome)
  {struct t} : M (list outcome) :=
  match t with
  | Dir _ subdirs files =>
      processed_files <- process_files root files processed_files ;;
      (fix descend (l : list dirtree) (processed_files : list outcome)
         : M (list outcome) :=
         match l with
         | [] => ret processed_files
         | (Dir d _ _ as sub) :: l' =>
             if keep_dir d then
               processed_files <- walk sub (path_join root d) processed_files ;;
               descend l' processed_files
             else descend l' processed_files
         end) subdirs processed_files
  end.

(** [os.walk] of a path that is no directory: the error of [os.scandir] is
    ignored ([onerror=None]) and nothing is yielded. *)
Definition walk_directory (directory : str) : M (list outcome) :=
  fun w =>
    match dirs w !! directory with
    | Some t => walk t directory [] w
    | None => (Ok [], w)
    end.

(** [scan_directory(directory)] (lines 26-40). *)
Definition scan_directory (directory : str) : M unit :=
  print (ScanningDirectory directory) ;;
  processed_files <- walk_directory directory ;;
  print_statistics processed_files.

(** ** Vocabulary of the statements *)
Module Spec.
Import Re.

(** The literal head of the pattern: a newline and [Tags:]. *)
Definition marker : str := nl :: U "Tags:".

(** [p] occurs somewhere in [s]. *)
Fixpoint occurs (p s : str) : bool :=
  startswith s p ||
  match s with
  | [] => false
  | _ :: s' => occurs p s'
  end.

(** The characters up to the end of the line. *)
Fixpoint line_of (s : str) : str :=
  match s with
  | [] => []
  | c :: s' => if any c then c :: line_of s' else []
  end.

(** How many leading characters of [s] are in the class. *)
Fixpoint leading (cls : char -> bool) (s : str) : nat :=
  match s with
  | c :: s' => if cls c then S (leading cls s') else O
  | [] => O
  end.

Fixpoint advance_by (n : nat) (r : option found) : option found :=
  match n with
  | O => r
  | S n' => advance (advance_by n' r)
  end.

(** The value the pattern captures behind the marker: blanks and line breaks
    are skipped, then the rest of that line is taken. *)
Definition tags_value (rest : str) : str := line_of (lstrip_by isspace rest).

(** A tag name as the statements write it: not empty, without blanks and
    without [#]. *)
Definition token_char (c : char) : bool := negb (isspace c) && negb (c =? hash).
Definition token_name (n : str) : bool := truthy n && forallb token_char n.

(** The text [#a #b #c] of the names [a], [b], [c]. *)
Definition tokens (names : list str) : str :=
  join [space] (map (cons hash) names).

(** A content whose tag line carries the tags [#a #b #c] of the names
    [a], [b], [c]: the first marker of the content, a line break followed by
    [Tags:], is followed by blanks, then by the tokens, and the line ends
    there. *)
Definition carries_tags (content : str) (names : list str) : Prop :=
  Forall (fun n => token_name n = true) names
  /\ exists pre ws tail,
       content = pre ++ marker ++ ws ++ tokens names ++ tail
       /\ occurs marker pre = false
       /\ forallb isspace ws = true
       /\ at_end_of_line tail = true.

(** The pieces between the [#] of [tokens names], the empty first piece
    apart. *)
Fixpoint pieces (names : list str) : list str :=
  match names with
  | [] => []
  | [n] => [n]
  | n :: ns => (n ++ [space]) :: pieces ns
  end.

(** The tags that [get_suggested_tags] makes of a generated text. *)
Definition suggested_of (ollama : bool) (text : str) : list str :=
  if ollama then map ollama_tag (split_ws (strip text))
  else split_ws (strip text).

(** A reply that carries more than ten tags. *)
Definition oversized (r : reply) : bool :=
  match r with
  | Response status_code (Generated text _) =>
      (status_code =? 200) && (10 <? length (split_ws (strip text)))%nat
  | _ => false
  end.

(** A reply that [get_suggested_tags] reports by returning [None]: a status
    other than 200, or, with Ollama, a body that is no JSON or lacks a
    key. *)
Definition reported_failure (ollama : bool) (r : reply) : bool :=
  match r with
  | NoConnection => false
  | Response status_code b =>
      if status_code =? 200 then
        match b with
        | Undecodable JSONDecodeError | Undecodable KeyError => ollama
        | _ => false
        end
      else true
  end.

(** What one call of the backend leaves of the world [w]: the files and the
    configuration are as before, one more query is counted and the answers
    still to come are [rest]. *)
Definition after_call (w w' : world) (rest : list reply) : Prop :=
  fs w' = fs w /\ dirs w' = dirs w /\ use_ollama w' = use_ollama w
  /\ api_queries w' = api_queries w + 1 /\ backend w' = rest.

(** A tag that begins with exactly one [#]. *)
Definition single_hash (t : str) : bool :=
  match t with
  | c :: t' => (c =? hash) && negb (startswith t' [hash])
  | [] => false
  end.

(** An input tag that the correction of lines 66-69 turns into a tag with
    exactly one [#]: it has one already, or it has none in front, blanks
    apart. *)
Definition one_hash_input (t : str) : bool :=
  if startswith t [hash] then single_hash t
  else negb (startswith (strip t) [hash]).

(** The paths of the markdown files under a directory, in the order in
    which [scan_directory] comes to them. *)
Fixpoint md_paths (t : dirtree) (root : str) : list str :=
  match t with
  | Dir _ subdirs files =>
      map (path_join root)
        (List.filter (fun f => endswith f (U ".md")) files)
      ++ (fix descend (l : list dirtree) : list str :=
            match l with
            | [] => []
            | (Dir d _ _ as sub) :: l' =>
                if keep_dir d
                then md_paths sub (path_join root d) ++ descend l'
                else descend l'
            end) subdirs
  end.

(** [process_file] on each path in turn, the outcomes collected. *)
Fixpoint process_all (paths : list str) (processed_files : list outcome)
  : M (list outcome) :=
  match paths with
  | [] => ret processed_files
  | p :: rest =>
      bind (process_file p default_retry_limit)
        (fun result => process_all rest (processed_files ++ [result]))
  end.

(** The world with some lines more on its output. *)
Definition printed (ls : list line) (w : world) : world :=
  set_stdout (stdout w ++ ls) w.

End Spec.

(** ** Vocabulary of the further properties *)
Module More.
Import Re Spec.

(** The tags that a tag-line value stands for (line 243). *)
Definition tags_of_value (v : str) : list str :=
  map strip (List.filter (fun tag => truthy (strip tag)) (split hash v)).

(** A text without a backslash. *)
Definition no_backslash (s : str) : bool :=
  forallb (fun c => negb (c =? backslash)) s.

(** A text without blanks. *)
Definition no_space (s : str) : bool := forallb (fun c => negb (isspace c)) s.

(** A text that begins with a character that is no blank. *)
Definition starts_solid (s : str) : bool :=
  match s with
  | c :: _ => negb (isspace c)
  | [] => false
  end.

(** A tag as [extract_existing_tags] returns it: not empty, trimmed, without
    [#] and without a line break. *)
Definition bare_tag (t : str) : Prop :=
  t <> [] /\ strip t = t
  /\ forallb (fun c => negb (c =? hash)) t = true
  /\ forallb any t = true.

(** What [process_file] may do to the world when it is given [file_path] and
    [retry_limit]: the directories and the configuration stay, every other
    file stays, and at most [retry_limit] queries are counted. *)
Definition within (file_path : str) (retry_limit : nat) (w w' : world) : Prop :=
  dirs w' = dirs w /\ use_ollama w' = use_ollama w
  /\ (forall p, p <> file_path -> fs w' !! p = fs w !! p)
  /\ api_queries w <= api_queries w'
  /\ api_queries w' <= api_queries w + N.of_nat retry_limit.

(** The outcome [o] and the world [w'] of a successful update of
    [file_path], whose text was [content] with the tags [existing]: some
    suggestion of one to ten tags was merged, the rewritten text was
    accepted and can be encoded, and it is now the text of the file. *)
Definition updated_by (file_path content : str) (existing : list str)
  (w w' : world) (o : outcome) : Prop :=
  exists suggested new_content f',
    suggested <> [] /\ (length suggested <= 10)%nat
    /\ o = {| file := file_path; status := tags_updated;
              tags := merge_tags existing suggested |}
    /\ rewrite_content content (join [space] (merge_tags existing suggested))
       = Ok new_content
    /\ encodable new_content = true
    /\ data f' = new_content
    /\ fs w' = <[file_path := f']> (fs w)
    /\ (forall f, fs w !! file_path = Some f ->
                  writable f = true /\ readable f' = readable f).

(** What an exception [e] out of the update of [file_path] leaves of the
    files: they are as before, or [e] is the encoding error of [file.write]
    and the file, which [open] had emptied by then, is empty. *)
Definition files_after_raise (file_path : str) (e : exn) (w w' : world) : Prop :=
  fs w' = fs w
  \/ (e = UnicodeEncodeError
      /\ exists f,
           fs w !! file_path = Some f /\ writable f = true
           /\ fs w' = <[file_path := {| data := []; readable := readable f;
                                        writable := true |}]> (fs w)).

(** The statistics lines for [n] outcomes. *)
Definition statistics_lines (processed_files : list outcome) (w : world)
  : list line :=
  [RunStatisticsHeader;
   TotalFilesProcessed (length processed_files);
   FilesWithTagsUpdated (count_status tags_updated processed_files);
   FilesWithExistingTags (count_status existing_tags processed_files);
   FilesThatFailed (count_status failed processed_files);
   PerformanceStatisticsHeader;
   TotalRunTime (run_time_of w);
   AverageTimePerFile
     (Qdiv (run_time_of w) (inject_Z (Z.of_nat (length processed_files))));
   TotalApiQueries (api_queries w);
   TotalTokensUsed (total_tokens w);
   if use_ollama w then UsingOllamaLocally
   else EstimatedApiCost
          (Qmult (Qdiv (total_tokens w) (inject_Z 1000)) (Qmake 8 100))].

End More.

(** ** Concrete worlds for the examples *)
Module Examples.

Definition vault : str := U "/vault".
Definition a_md : str := U "/vault/a.md".
Definition b_md : str := U "/vault/b.md".

Definition text_file (text : str) : disk_file :=
  {| data := text; readable := true; writable := true |}.

Definition locked_file (text : str) : disk_file :=
  {| data := text; readable := false; writable := false |}.

Definition make_world (files : gmap str disk_file) (ds : gmap str dirtree)
  (replies : list reply) (ollama : bool) : world :=
  {| fs := files; dirs := ds; backend := replies; use_ollama := ollama;
     api_queries := 0; total_tokens := 0; start_time := 0; now := 5;
     stdout := [] |}.

(** A note without a tag line. *)
Definition plain_note : str := U "A note about gardening.".

(** A note with two tags. *)
Definition tagged_note : str := U "note" ++ nl :: U "Tags: #a #b".

(** One note [a.md] in the vault, and the replies of the backend. *)
Definition one_note (text : str) (replies : list reply) (ollama : bool) : world :=
  make_world {[ a_md := text_file text ]}
             {[ vault := Dir [] [] [U "a.md"] ]} replies ollama.

(** A note with nine tags. *)
Definition nine_tags_note : str :=
  U "note" ++ nl :: U "Tags: #t1 #t2 #t3 #t4 #t5 #t6 #t7 #t8 #t9".


(** Two notes in the vault; the first cannot be read. *)
Definition locked_vault : world :=
  make_world {[ a_md := locked_file plain_note; b_md := text_file plain_note ]}
             {[ vault := Dir [] [] [U "a.md"; U "b.md"] ]} [] false.

(** A reply of nine well-formed tags. *)
Definition nine_names : list str :=
  [U "t1"; U "t2"; U "t3"; U "t4"; U "t5"; U "t6"; U "t7"; U "t8"; U "t9"].

Definition nine_tags_reply : reply :=
  Response 200 (Generated (U "#t1 #t2 #t3 #t4 #t5 #t6 #t7 #t8 #t9") 0).


(** A reply with the given generated text. *)
Definition says (text : string) : reply := Response 200 (Generated (U text) 0).

End Examples.

(** Unfolds the monadic plumbing of a run on a world given by its fields. *)
Ltac run :=
  cbv [process_file get_suggested_tags get_suggested_tags_ollama
       get_suggested_tags_claude merge_and_write
       bind ret raise lift print read_file write_file truncate_and_write
       requests_post
       incr_api_queries add_total_tokens get_use_ollama Spec.printed
       set_fs set_backend set_api_queries set_total_tokens set_stdout
       fs dirs backend use_ollama api_queries total_tokens start_time now
       stdout].

(** * Properties *)

(** ** The tag pattern *)
Module ReFacts.
Import Re Spec.

Lemma marker_chars : marker = [10; 84; 97; 103; 115; 58].
Proof. reflexivity. Qed.

Lemma startswith_nil s : startswith s [] = true.
Proof. by destruct s. Qed.

Lemma advance_by_Some n m :
  advance_by n (Some m) = Some {| span := n + span m; group1 := group1 m |}.
Proof.
  induction n as [|n IH]; simpl.
  - by destruct m.
  - by rewrite IH.
Qed.

Lemma match_here_literals lit p s :
  match_here (map Literal lit ++ p) s =
  if startswith s lit
  then advance_by (length lit) (match_here p (drop (length lit) s))
  else None.
Proof.
  revert s. induction lit as [|c lit IH]; intros s.
  - by destruct s.
  - cbn [map app match_here length].
    destruct s as [|x s]; [done|].
    change (startswith (x :: s) (c :: lit))
      with ((x =? c) && startswith s lit).
    destruct (x =? c); [|done].
    cbn [andb drop advance_by]. rewrite IH. by destruct (startswith s lit).
Qed.

Lemma lazy_star_line s :
  lazy_star any (match_here [EndOfLine]) s =
  Some {| span := length (line_of s); group1 := line_of s |}.
Proof.
  induction s as [|x s IH]; [done|].
  cbn [lazy_star line_of].
  change (match_here [EndOfLine] (x :: s))
    with (if x =? nl then Some {| span := 0; group1 := [] |} else None).
  change (any x) with (negb (x =? nl)).
  destruct (x =? nl); cbn [negb]; [done|].
  by rewrite IH.
Qed.

Lemma greedy_star_leading cls k s m :
  k (lstrip_by cls s) = Some m ->
  greedy_star cls k s =
  Some {| span := leading cls s + span m; group1 := group1 m |}.
Proof.
  induction s as [|x s IH]; simpl.
  - intros ->. by destruct m.
  - destruct (cls x).
    + intros H. by rewrite (IH H).
    + intros ->. by destruct m.
Qed.

Lemma match_here_tags s :
  match_here tags_pattern s =
  if startswith s marker
  then let rest := drop 6 s in
       Some {| span := 6 + (leading isspace rest + length (tags_value rest));
               group1 := tags_value rest |}
  else None.
Proof.
  change tags_pattern
    with (map Literal marker ++ [Star isspace; GroupLazyStar any; EndOfLine]).
  rewrite match_here_literals.
  destruct (startswith s marker); [|done].
  change (length marker) with 6%nat. cbv zeta.
  change (match_here [Star isspace; GroupLazyStar any; EndOfLine] (drop 6 s))
    with (greedy_star isspace (lazy_star any (match_here [EndOfLine])) (drop 6 s)).
  rewrite (greedy_star_leading _ _ _ _ (lazy_star_line _)).
  by rewrite advance_by_Some.
Qed.

Lemma search_here p s m :
  match_here p s = Some m -> search p s = Some (0%nat, m).
Proof. intros H. destruct s; cbn [search]; by rewrite H. Qed.

Lemma search_later p x s :
  match_here p (x :: s) = None ->
  search p (x :: s) =
  match search p s with
  | Some (i, m) => Some (S i, m)
  | None => None
  end.
Proof. intros H. cbn [search]. by rewrite H. Qed.

Lemma search_absent s :
  occurs marker s = false -> search tags_pattern s = None.
Proof.
  induction s as [|x s IH].
  - done.
  - cbn [occurs]. intros [H1 H2]%orb_false_elim.
    rewrite search_later, (IH H2); [done|].
    by rewrite match_here_tags, H1.
Qed.

(** A marker cannot begin inside a shorter text and end inside a marker that
    follows it: the marker has its only newline in front. *)
Lemma startswith_before_marker x rest :
  x <> [] ->
  startswith x marker = false ->
  startswith (x ++ marker ++ rest) marker = false.
Proof.
  intros Hx H. rewrite marker_chars in *.
  destruct x as [|c0 [|c1 [|c2 [|c3 [|c4 [|c5 x]]]]]]; [done|..];
    cbn [startswith app] in H |- *;
    rewrite ?startswith_nil in *;
    repeat match goal with
           | |- context [?c =? ?d] => is_var c; destruct (c =? d)
           end;
    done.
Qed.

Lemma search_first pre rest :
  occurs marker pre = false ->
  search tags_pattern (pre ++ marker ++ rest) =
  Some (length pre,
        {| span := 6 + (leading isspace rest + length (tags_value rest));
           group1 := tags_value rest |}).
Proof.
  induction pre as [|x pre IH].
  - intros _. apply search_here. rewrite match_here_tags, marker_chars.
    reflexivity.
  - cbn [occurs]. intros [H1 H2]%orb_false_elim.
    change ((x :: pre) ++ marker ++ rest) with (x :: (pre ++ marker ++ rest)).
    rewrite search_later, (IH H2); [done|].
    rewrite match_here_tags.
    change (x :: pre ++ marker ++ rest) with ((x :: pre) ++ marker ++ rest).
    by rewrite startswith_before_marker.
Qed.

End ReFacts.

(** ** Splitting and trimming *)
Module PyFacts.
Import Spec.

Lemma forallb_impl (f g : char -> bool) s :
  (forall c, f c = true -> g c = true) ->
  forallb f s = true -> forallb g s = true.
Proof.
  intros Hfg. induction s as [|c s IH]; [done|].
  cbn [forallb]. intros [H1 H2]%andb_prop.
  by rewrite (Hfg _ H1), (IH H2).
Qed.

Lemma forallb_rev (f : char -> bool) s : forallb f (rev s) = forallb f s.
Proof.
  induction s as [|c s IH]; [done|].
  cbn [rev forallb]. rewrite forallb_app, IH. cbn [forallb].
  by rewrite andb_true_r, andb_comm.
Qed.

Lemma token_char_not_space c : token_char c = true -> isspace c = false.
Proof. unfold token_char. by destruct (isspace c). Qed.

Lemma token_char_not_hash c : token_char c = true -> (c =? hash) = false.
Proof. unfold token_char. destruct (c =? hash); [|done]. by rewrite andb_false_r. Qed.

Lemma not_space_any c : isspace c = false -> Re.any c = true.
Proof.
  unfold Re.any. destruct (N.eqb_spec c nl) as [->|]; [|done].
  by vm_compute.
Qed.

Lemma lstrip_by_kept f s :
  match s with c :: _ => f c = false | [] => True end -> lstrip_by f s = s.
Proof. destruct s as [|c s]; [done|]. cbn [lstrip_by]. by intros ->. Qed.

Lemma lstrip_by_app f ws r :
  forallb f ws = true -> lstrip_by f (ws ++ r) = lstrip_by f r.
Proof.
  induction ws as [|c ws IH]; [done|].
  cbn [forallb app lstrip_by]. intros [-> H]%andb_prop. by apply IH.
Qed.

Lemma strip_token n : token_name n = true -> strip n = n.
Proof.
  unfold token_name. intros [Hn Hall]%andb_prop.
  assert (Hsp : forallb (fun c => negb (isspace c)) n = true).
  { revert Hall. apply forallb_impl. intros c H.
    by rewrite (token_char_not_space _ H). }
  unfold strip, strip_by, rstrip_by.
  rewrite (lstrip_by_kept _ (rev n)).
  - rewrite rev_involutive. apply lstrip_by_kept.
    destruct n as [|c n]; [done|]. cbn [forallb] in Hsp.
    apply andb_prop in Hsp as [H _]. by destruct (isspace c).
  - rewrite <- forallb_rev in Hsp. destruct (rev n) as [|c r]; [done|].
    cbn [forallb] in Hsp. apply andb_prop in Hsp as [H _].
    by destruct (isspace c).
Qed.

Lemma strip_token_space n : token_name n = true -> strip (n ++ [space]) = n.
Proof.
  intros H. rewrite <- (strip_token n H) at 2.
  unfold strip, strip_by, rstrip_by. by rewrite rev_app_distr.
Qed.

Lemma token_truthy n : token_name n = true -> truthy n = true.
Proof. unfold token_name. by intros [H _]%andb_prop. Qed.

Lemma split_plain sep a :
  forallb (fun c => negb (c =? sep)) a = true -> split sep a = [a].
Proof.
  induction a as [|c a IH]; [done|].
  cbn [forallb split]. intros [H1 H2]%andb_prop.
  destruct (c =? sep); [done|]. by rewrite (IH H2).
Qed.

Lemma split_app sep a r :
  forallb (fun c => negb (c =? sep)) a = true ->
  split sep (a ++ sep :: r) = a :: split sep r.
Proof.
  induction a as [|c a IH].
  - intros _. cbn [app split]. by rewrite N.eqb_refl.
  - cbn [forallb app split]. intros [H1 H2]%andb_prop.
    destruct (c =? sep); [done|]. by rewrite (IH H2).
Qed.

Lemma token_no_hash n :
  token_name n = true -> forallb (fun c => negb (c =? hash)) n = true.
Proof.
  unfold token_name. intros [_ H]%andb_prop. revert H.
  apply forallb_impl. intros c H. by rewrite (token_char_not_hash _ H).
Qed.

Lemma token_space_no_hash n :
  token_name n = true ->
  forallb (fun c => negb (c =? hash)) (n ++ [space]) = true.
Proof. intros H. by rewrite forallb_app, (token_no_hash _ H). Qed.

Lemma split_tokens n names :
  Forall (fun n => token_name n = true) (n :: names) ->
  split hash (tokens (n :: names)) = [] :: pieces (n :: names).
Proof.
  revert n. induction names as [|n' names IH]; intros n Hall.
  - apply Forall_cons in Hall as [Hn _].
    unfold tokens. cbn [map join split pieces]. rewrite N.eqb_refl.
    by rewrite (split_plain _ _ (token_no_hash _ Hn)).
  - apply Forall_cons in Hall as [Hn Hall].
    specialize (IH n' Hall).
    assert (Ht : exists t', tokens (n' :: names) = hash :: t').
    { unfold tokens. cbn [map join]. destruct (map (cons hash) names); eauto. }
    destruct Ht as [t' Ht].
    assert (Hcons : tokens (n :: n' :: names)
                    = hash :: (n ++ [space]) ++ tokens (n' :: names)).
    { unfold tokens. cbn [map join]. by rewrite <- app_assoc. }
    rewrite Hcons. rewrite Ht in IH |- *.
    cbn [split] in IH |- *. rewrite N.eqb_refl in IH |- *.
    rewrite (split_app _ _ _ (token_space_no_hash _ Hn)).
    injection IH as ->. done.
Qed.

Lemma strip_pieces names :
  Forall (fun n => token_name n = true) names ->
  map strip (List.filter (fun tag => truthy (strip tag)) (pieces names)) = names.
Proof.
  induction names as [|n names IH]; [done|].
  intros [Hn Hall]%Forall_cons. specialize (IH Hall).
  destruct names as [|n' names].
  - cbn [pieces List.filter].
    rewrite (strip_token _ Hn), (token_truthy _ Hn). cbn [map].
    by rewrite (strip_token _ Hn).
  - change (pieces (n :: n' :: names))
      with ((n ++ [space]) :: pieces (n' :: names)).
    cbn [List.filter].
    rewrite (strip_token_space _ Hn), (token_truthy _ Hn).
    cbn [map]. by rewrite (strip_token_space _ Hn), IH.
Qed.

Lemma tokens_one_line names :
  Forall (fun n => token_name n = true) names ->
  forallb Re.any (tokens names) = true.
Proof.
  induction names as [|n names IH]; [done|].
  intros [Hn Hall]%Forall_cons. specialize (IH Hall).
  assert (Hany : forallb Re.any n = true).
  { unfold token_name in Hn. apply andb_prop in Hn as [_ Hn]. revert Hn.
    apply forallb_impl. intros c H.
    by apply not_space_any, token_char_not_space. }
  unfold tokens in *. cbn [map join].
  destruct (map (cons hash) names) as [|x l].
  - cbn [forallb]. by rewrite Hany.
  - cbn [forallb app]. rewrite forallb_app, Hany. cbn [forallb app].
    by rewrite IH.
Qed.

Lemma line_of_app t tail :
  forallb Re.any t = true -> Re.at_end_of_line tail = true ->
  line_of (t ++ tail) = t.
Proof.
  intros Ht Htail. induction t as [|c t IH].
  - destruct tail as [|c tail]; [done|].
    cbn [app line_of]. cbn in Htail. unfold Re.any. by rewrite Htail.
  - cbn [forallb] in Ht. apply andb_prop in Ht as [Hc Ht].
    cbn [app line_of]. by rewrite Hc, (IH Ht).
Qed.

Lemma split_pieces_plain sep s :
  Forall (fun p => forallb (fun c => negb (c =? sep)) p = true) (split sep s).
Proof.
  induction s as [|c s IH]; cbn [split].
  - by repeat constructor.
  - destruct (c =? sep) eqn:E; [by constructor|].
    destruct (split sep s) as [|p ps].
    { repeat constructor. cbn [forallb]. by rewrite E. }
    apply Forall_cons in IH as [Hp Hps].
    constructor; [|done]. cbn [forallb]. by rewrite E, Hp.
Qed.

Lemma lstrip_by_forallb (f g : char -> bool) s :
  forallb g s = true -> forallb g (lstrip_by f s) = true.
Proof.
  induction s as [|c s IH]; [done|].
  cbn [lstrip_by]. destruct (f c); [|done].
  cbn [forallb]. intros [_ H]%andb_prop. by apply IH.
Qed.

Lemma strip_forallb (g : char -> bool) s :
  forallb g s = true -> forallb g (strip s) = true.
Proof.
  intros H. unfold strip, strip_by, rstrip_by.
  apply lstrip_by_forallb. rewrite forallb_rev.
  apply lstrip_by_forallb. by rewrite forallb_rev.
Qed.

End PyFacts.

(** ** [process_file] *)
Import Spec ReFacts PyFacts.

Lemma process_file_skips w file_path retry_limit f :
  fs w !! file_path = Some f ->
  readable f = true ->
  (9 <= length (extract_existing_tags (data f)))%nat ->
  process_file file_path retry_limit w =
    (Ok {| file := file_path; status := existing_tags;
           tags := extract_existing_tags (data f) |},
     printed [ProcessingFile file_path;
              ExistingTagsFound (join [space] (extract_existing_tags (data f)))]
             w).
Proof.
  intros Hf Hr Hlen.
  destruct w as [files ds b o q t st nw out]. cbn [fs] in Hf.
  run. rewrite Hf, Hr.
  apply Nat.ltb_ge in Hlen. rewrite Hlen.
  by rewrite <- app_assoc.
Qed.

(** What the parser reads from a content that carries tags: their names. *)
Lemma extract_carried content names :
  names <> [] -> carries_tags content names ->
  extract_existing_tags content = names.
Proof.
  intros Hne (Hnames & pre & ws & tail & -> & Hpre & Hws & Htail).
  unfold extract_existing_tags. rewrite (search_first _ _ Hpre).
  cbn [Re.group1]. unfold tags_value.
  rewrite (lstrip_by_app _ _ _ Hws).
  destruct names as [|n names]; [done|].
  assert (Hhead : exists t, tokens (n :: names) = hash :: t).
  { unfold tokens. cbn [map join]. destruct (map (cons hash) names); eauto. }
  destruct Hhead as [t Ht].
  rewrite lstrip_by_kept by (by rewrite Ht).
  rewrite (line_of_app _ _ (tokens_one_line _ Hnames) Htail).
  rewrite (split_tokens _ _ Hnames).
  cbn [List.filter]. change (truthy (strip [])) with false. cbv iota.
  by apply strip_pieces.
Qed.




Lemma retry_loop_accepts w w' file_path content existing suggested remaining :
  get_suggested_tags content w = (Ok (Some suggested), w') ->
  suggested <> [] ->
  (length suggested <= 10)%nat ->
  retry_loop file_path content existing (S remaining) w
  = merge_and_write file_path content existing suggested w'.
Proof.
  intros Hcall Hne Hlen.
  cbn [retry_loop]. unfold bind at 1. rewrite Hcall.
  destruct suggested as [|t ts]; [done|].
  apply Nat.ltb_ge in Hlen. by rewrite Hlen.
Qed.

Lemma merge_and_write_writes w file_path content existing suggested f new_content :
  fs w !! file_path = Some f ->
  writable f = true ->
  rewrite_content content (join [space] (merge_tags existing suggested))
    = Ok new_content ->
  encodable new_content = true ->
  merge_and_write file_path content existing suggested w
  = (Ok {| file := file_path; status := tags_updated;
           tags := merge_tags existing suggested |},
     printed [UpdatedTags (join [space] (merge_tags existing suggested))]
       (set_fs (<[file_path := {| data := new_content;
                                  readable := readable f;
                                  writable := true |}]> (fs w)) w)).
Proof.
  intros Hf Hw Hnew Henc.
  unfold merge_and_write, bind, lift, write_file, truncate_and_write, print, ret.
  by rewrite Hnew, Hf, Hw, Henc.
Qed.

(** The write of a text that cannot be encoded: the note has been emptied
    when [file.write] raises. *)
Lemma merge_and_write_empties w file_path content existing suggested f new_content :
  fs w !! file_path = Some f ->
  writable f = true ->
  rewrite_content content (join [space] (merge_tags existing suggested))
    = Ok new_content ->
  encodable new_content = false ->
  merge_and_write file_path content existing suggested w
  = (Raise UnicodeEncodeError,
     set_fs (<[file_path := {| data := []; readable := readable f;
                               writable := true |}]> (fs w)) w).
Proof.
  intros Hf Hw Hnew Henc.
  unfold merge_and_write, bind, lift, write_file, truncate_and_write, print, ret.
  by rewrite Hnew, Hf, Hw, Henc.
Qed.

Lemma get_suggested_tags_fs content w :
  fs (snd (get_suggested_tags content w)) = fs w.
Proof.
  destruct w as [files ds b o q t st nw out].
  destruct o; run; destruct b as [|[|status_code bd] b]; try done;
    destruct (status_code =? 200); try done;
    destruct bd as [text tokens|e]; try done; by destruct e.
Qed.

(** C3, as stated, fails: a backend that returns zero tags (a generated text
    of blanks only) makes [process_file] end in the failed state, and the
    note is not written. *)
Lemma empty_suggestion_fails :
  let w := Examples.one_note Examples.plain_note [Examples.says "  "] false in
  fst (get_suggested_tags Examples.plain_note w) = Ok (Some [])
  /\ fst (process_file Examples.a_md 3 w)
     = Ok {| file := Examples.a_md; status := failed; tags := [] |}
  /\ fs (snd (process_file Examples.a_md 3 w)) = fs w.
Proof. vm_compute. done. Qed.

(** C3 (amended).  In one turn of the retry loop, whenever the backend
    returns a tag list that is not empty and has at most 10 elements, the
    loop goes on to the merge and write steps: its result is the result of
    [merge_and_write] on these tags.  That step never gives the outcome
    [failed]: its outcome is [tags_updated] with the merged tags, and when
    the rewritten text is accepted and the file is writable, the text is
    written to the file (or, when it cannot be encoded, the emptied file is
    left behind the encoding error).  An empty tag list is treated like a
    failure of the backend: the loop ends at once with the outcome [failed],
    and no file is written. *)
Theorem retry_loop_proceeds (w w' : world) (file_path content : str)
  (existing suggested : list str) (remaining : nat) :
  get_suggested_tags content w = (Ok (Some suggested), w') ->
  (length suggested <= 10)%nat ->
  (suggested <> [] ->
   retry_loop file_path content existing (S remaining) w
     = merge_and_write file_path content existing suggested w'
   /\ (forall o w2,
         merge_and_write file_path content existing suggested w' = (Ok o, w2) ->
         status o = tags_updated /\ tags o = merge_tags existing suggested)
   /\ (forall f new_content,
         fs w' !! file_path = Some f ->
         writable f = true ->
         rewrite_content content (join [space] (merge_tags existing suggested))
           = Ok new_content ->
         merge_and_write file_path content existing suggested w'
         = if encodable new_content
           then (Ok {| file := file_path; status := tags_updated;
                       tags := merge_tags existing suggested |},
                 printed
                   [UpdatedTags (join [space] (merge_tags existing suggested))]
                   (set_fs (<[file_path := {| data := new_content;
                                              readable := readable f;
                                              writable := true |}]> (fs w'))
                      w'))
           else (Raise UnicodeEncodeError,
                 set_fs (<[file_path := {| data := [];
                                           readable := readable f;
                                           writable := true |}]> (fs w')) w')))
  /\ (suggested = [] ->
      retry_loop file_path content existing (S remaining) w
        = (Ok {| file := file_path; status := failed; tags := [] |},
           printed [FailedToGenerateTags] w')
      /\ fs (printed [FailedToGenerateTags] w') = fs w).
Proof.
  intros Hcall Hlen. split.
  - intros Hne. split; [|split].
    + by apply retry_loop_accepts.
    + intros o w2.
      unfold merge_and_write, bind, lift, write_file, truncate_and_write,
        print, ret.
      destruct (rewrite_content _ _); [|done].
      destruct (fs w' !! file_path) as [f|].
      * destruct (writable f); [|done].
        destruct (encodable a); [|done]. by intros [= <- _].
      * destruct (encodable a); [|done]. by intros [= <- _].
    + intros f new_content Hf Hw Hnew.
      destruct (encodable new_content) eqn:Henc.
      * by apply (merge_and_write_writes _ _ _ _ _ f new_content).
      * by apply (merge_and_write_empties _ _ _ _ _ f new_content).
  - intros ->. split.
    + cbn [retry_loop]. unfold bind at 1. by rewrite Hcall.
    + pose proof (get_suggested_tags_fs content w) as Hfs.
      rewrite Hcall in Hfs. cbn [snd] in Hfs. rewrite <- Hfs. by destruct w'.
Qed.

Lemma retry_loop_proceeds_witness :
  let w := Examples.one_note Examples.tagged_note [Examples.says "#c #d"] true in
  let e := Examples.one_note Examples.plain_note [Examples.says "  "] false in
  retry_loop Examples.a_md Examples.tagged_note [U "a"; U "b"] 3 w
  = merge_and_write Examples.a_md Examples.tagged_note [U "a"; U "b"]
      [U "#c"; U "#d"] (snd (get_suggested_tags Examples.tagged_note w))
  /\ retry_loop Examples.a_md Examples.plain_note [] 3 e
     = (Ok {| file := Examples.a_md; status := failed; tags := [] |},
        printed [FailedToGenerateTags]
          (snd (get_suggested_tags Examples.plain_note e))).
Proof.
  intros w e. split.
  - refine (proj1 (proj1 (retry_loop_proceeds w
                     (snd (get_suggested_tags Examples.tagged_note w))
                     Examples.a_md Examples.tagged_note [U "a"; U "b"]
                     [U "#c"; U "#d"] 2 _ _) _)).
    + reflexivity.
    + cbn. lia.
    + discriminate.
  - refine (proj1 (proj2 (retry_loop_proceeds e
                     (snd (get_suggested_tags Examples.plain_note e))
                     Examples.a_md Examples.plain_note [] [] 2 _ _) _)).
    + reflexivity.
    + cbn. lia.
    + reflexivity.
Defined.

(** ** [extract_existing_tags] *)

(** C1, as stated, fails: on a note with the line [Tags: #a #b #c] the
    function returns the names [a], [b], [c], without the [#]. *)
Lemma extract_existing_tags_drops_hash :
  extract_existing_tags (U "note" ++ nl :: U "Tags: #a #b #c")
    = [U "a"; U "b"; U "c"]
  /\ extract_existing_tags (U "note" ++ nl :: U "Tags: #a #b #c")
    <> [U "#a"; U "#b"; U "#c"].
Proof. split; [reflexivity|]. vm_compute. discriminate. Qed.

(** C1 (amended).  For every content in which the first line matching the
    [Tags:] marker is followed by the tokens [#a #b #c], the function
    returns exactly the sequence [a, b, c]: the rest of the line is split at
    [#], each piece is trimmed, empty pieces are discarded, and the pieces
    that remain are returned as they are, without a [#] in front. *)
Theorem extract_existing_tags_tokens (pre ws tail : str) (names : list str) :
  occurs marker pre = false ->
  forallb isspace ws = true ->
  names <> [] ->
  Forall (fun n => token_name n = true) names ->
  Re.at_end_of_line tail = true ->
  extract_existing_tags (pre ++ marker ++ ws ++ tokens names ++ tail) = names.
Proof.
  intros Hpre Hws Hne Hnames Htail.
  unfold extract_existing_tags. rewrite (search_first _ _ Hpre).
  cbn [Re.group1]. unfold tags_value.
  rewrite (lstrip_by_app _ _ _ Hws).
  destruct names as [|n names]; [done|].
  assert (Hhead : exists t, tokens (n :: names) = hash :: t).
  { unfold tokens. cbn [map join]. destruct (map (cons hash) names); eauto. }
  destruct Hhead as [t Ht].
  rewrite lstrip_by_kept by (by rewrite Ht).
  rewrite (line_of_app _ _ (tokens_one_line _ Hnames) Htail).
  rewrite (split_tokens _ _ Hnames).
  cbn [List.filter]. change (truthy (strip [])) with false. cbv iota.
  by apply strip_pieces.
Qed.

Lemma extract_existing_tags_tokens_witness :
  extract_existing_tags
    (U "note" ++ marker ++ [space] ++ tokens [U "a"; U "b"; U "c"]
       ++ nl :: U "more text")
  = [U "a"; U "b"; U "c"].
Proof.
  apply (extract_existing_tags_tokens (U "note") [space] (nl :: U "more text")
           [U "a"; U "b"; U "c"]).
  - reflexivity.
  - reflexivity.
  - discriminate.
  - repeat constructor.
  - reflexivity.
Defined.

(** ** The retry loop *)

Lemma get_suggested_tags_generated content w text tokens rest :
  backend w = Response 200 (Generated text tokens) :: rest ->
  exists w',
    get_suggested_tags content w
      = (Ok (Some (suggested_of (use_ollama w) text)), w')
    /\ after_call w w' rest.
Proof.
  destruct w as [files ds b o q t st nw out]. cbn [backend use_ollama].
  intros ->. run. destruct o; cbn [N.eqb Pos.eqb suggested_of];
    (eexists; split; [reflexivity|]); by repeat split.
Qed.

Lemma get_suggested_tags_failure content w r rest :
  backend w = r :: rest ->
  reported_failure (use_ollama w) r = true ->
  exists w',
    get_suggested_tags content w = (Ok None, w') /\ after_call w w' rest.
Proof.
  destruct w as [files ds b o q t st nw out]. cbn [backend use_ollama].
  intros -> Hr. destruct r as [|status_code bd]; [done|].
  cbn [reported_failure] in Hr.
  destruct o; run; destruct (status_code =? 200);
    try (destruct bd as [|e]; [done|]; destruct e; try done);
    (eexists; split; [reflexivity|]); by repeat split.
Qed.

Lemma oversized_suggested ollama status_code text tokens :
  oversized (Response status_code (Generated text tokens)) = true ->
  status_code = 200
  /\ (10 <? length (suggested_of ollama text))%nat = true.
Proof.
  cbn [oversized]. intros [H1 H2]%andb_prop. apply N.eqb_eq in H1.
  split; [done|]. unfold suggested_of.
  destruct ollama; [|done]. by rewrite length_map.
Qed.

(** When each of the next [remaining] answers carries more than ten tags,
    the loop asks exactly [remaining] times and gives up. *)
Lemma retry_loop_oversized file_path content existing replies :
  forall w rest,
    backend w = replies ++ rest ->
    forallb oversized replies = true ->
    exists w',
      retry_loop file_path content existing (length replies) w
        = (Ok {| file := file_path; status := failed; tags := [] |}, w')
      /\ fs w' = fs w
      /\ api_queries w' = api_queries w + N.of_nat (length replies)
      /\ backend w' = rest.
Proof.
  induction replies as [|r replies IH]; intros w rest Hb Hall.
  - cbn [length retry_loop]. unfold bind, print, ret.
    eexists; split; [reflexivity|].
    destruct w; cbn in *. repeat split; [lia|done].
  - cbn [forallb] in Hall. apply andb_prop in Hall as [Hr Hall].
    destruct r as [|status_code [text tokens|e]]; try done.
    destruct (oversized_suggested (use_ollama w) _ _ _ Hr) as [-> Hlen].
    destruct (get_suggested_tags_generated content w text tokens
                (replies ++ rest) Hb) as (w1 & Hcall & Hfs & _ & Ho & Hq & Hb1).
    destruct (IH (printed [WarningMoreThan10Tags] w1) rest) as (w' & Hloop & Hfs' & Hq' & Hb');
      [by destruct w1|done|].
    exists w'. split.
    + cbn [length retry_loop]. unfold bind at 1. rewrite Hcall.
      destruct (suggested_of (use_ollama w) text) as [|t ts]; [done|].
      rewrite Hlen. unfold bind at 1. exact Hloop.
    + rewrite Hfs', Hq', Hb'. destruct w1; cbn in *. repeat split; [done|lia].
Qed.

Lemma process_file_needs_tags w file_path retry_limit f :
  fs w !! file_path = Some f ->
  readable f = true ->
  (length (extract_existing_tags (data f)) < 9)%nat ->
  process_file file_path retry_limit w
  = retry_loop file_path (data f) (extract_existing_tags (data f)) retry_limit
      (printed [ProcessingFile file_path; LessThan9ExistingTags] w).
Proof.
  intros Hf Hr Hlen. apply Nat.ltb_lt in Hlen.
  destruct w as [files ds b o q t st nw out]. cbn [fs] in Hf.
  run. rewrite Hf, Hr, Hlen. by rewrite <- app_assoc.
Qed.

(** C9, as stated, fails in its last part: with the Claude backend a reply
    whose body cannot be decoded makes [process_file] raise the decoding
    error instead of returning the outcome [failed], and so does a refused
    connection with either backend. *)
Lemma backend_errors_propagate :
  fst (process_file Examples.a_md 3
         (Examples.one_note Examples.plain_note
            [Response 200 (Undecodable JSONDecodeError)] false))
    = Raise JSONDecodeError
  /\ fst (process_file Examples.a_md 3
            (Examples.one_note Examples.plain_note [NoConnection] true))
    = Raise ConnectionError.
Proof. split; reflexivity. Qed.

(** C9 (amended).  For every file needing tags: if the backend returns more
    than 10 tags on three consecutive attempts, [process_file] ends with the
    outcome [failed] after exactly 3 attempts and the files are unchanged;
    the retry is for the oversized answer only, and a backend failure that
    [get_suggested_tags] reports by returning nothing (a status other than
    200, or with Ollama a body that is no JSON or lacks a key) gives the
    outcome [failed] at once, after one attempt and without retry. *)
Theorem process_file_bounded_retry (w : world) (file_path : str)
  (f : disk_file) :
  fs w !! file_path = Some f ->
  readable f = true ->
  (length (extract_existing_tags (data f)) < 9)%nat ->
  (forall r1 r2 r3 rest,
      backend w = r1 :: r2 :: r3 :: rest ->
      oversized r1 = true -> oversized r2 = true -> oversized r3 = true ->
      exists w',
        process_file file_path 3 w
          = (Ok {| file := file_path; status := failed; tags := [] |}, w')
        /\ fs w' = fs w
        /\ api_queries w' = api_queries w + 3
        /\ backend w' = rest)
  /\ (forall r rest retry_limit,
      backend w = r :: rest ->
      reported_failure (use_ollama w) r = true ->
      exists w',
        process_file file_path (S retry_limit) w
          = (Ok {| file := file_path; status := failed; tags := [] |}, w')
        /\ fs w' = fs w
        /\ api_queries w' = api_queries w + 1
        /\ backend w' = rest).
Proof.
  intros Hf Hr Hlen. split.
  - intros r1 r2 r3 rest Hb H1 H2 H3.
    rewrite (process_file_needs_tags _ _ _ _ Hf Hr Hlen).
    destruct (retry_loop_oversized file_path (data f)
                (extract_existing_tags (data f)) [r1; r2; r3]
                (printed [ProcessingFile file_path; LessThan9ExistingTags] w)
                rest) as (w' & Hloop & Hfs & Hq & Hb').
    + by destruct w.
    + cbn [forallb]. by rewrite H1, H2, H3.
    + exists w'. split; [exact Hloop|]. rewrite Hfs, Hq, Hb'.
      by destruct w.
  - intros r rest retry_limit Hb Hfail.
    rewrite (process_file_needs_tags _ _ _ _ Hf Hr Hlen).
    destruct (get_suggested_tags_failure (data f)
                (printed [ProcessingFile file_path; LessThan9ExistingTags] w)
                r rest) as (w1 & Hcall & Hfs & _ & _ & Hq & Hb');
      [by destruct w|by destruct w|].
    eexists. split.
    + cbn [retry_loop]. unfold bind at 1. rewrite Hcall.
      unfold bind, print, ret. reflexivity.
    + destruct w, w1; cbn in *. by repeat split.
Qed.

Lemma process_file_bounded_retry_witness :
  let many := Examples.says "#1 #2 #3 #4 #5 #6 #7 #8 #9 #10 #11" in
  (exists w',
      process_file Examples.a_md 3
        (Examples.one_note Examples.plain_note [many; many; many] true)
        = (Ok {| file := Examples.a_md; status := failed; tags := [] |}, w')
      /\ fs w' = fs (Examples.one_note Examples.plain_note [many; many; many] true)
      /\ api_queries w' = 0 + 3
      /\ backend w' = [])
  /\ (exists w',
      process_file Examples.a_md 3
        (Examples.one_note Examples.plain_note
           [Response 500 (Undecodable JSONDecodeError)] false)
        = (Ok {| file := Examples.a_md; status := failed; tags := [] |}, w')
      /\ fs w' = fs (Examples.one_note Examples.plain_note
                       [Response 500 (Undecodable JSONDecodeError)] false)
      /\ api_queries w' = 0 + 1
      /\ backend w' = []).
Proof.
  intros many. split.
  - refine (proj1 (process_file_bounded_retry
                     (Examples.one_note Examples.plain_note [many; many; many] true)
                     Examples.a_md (Examples.text_file Examples.plain_note)
                     _ _ _) many many many [] _ _ _ _);
      try reflexivity. vm_compute. lia.
  - refine (proj2 (process_file_bounded_retry
                     (Examples.one_note Examples.plain_note
                        [Response 500 (Undecodable JSONDecodeError)] false)
                     Examples.a_md (Examples.text_file Examples.plain_note)
                     _ _ _) _ [] 2%nat _ _);
      try reflexivity. vm_compute. lia.
Defined.

(** ** [print_statistics] *)

(** C4 fails on the code: with no file processed, [print_statistics] prints
    the counts and the run time and then divides by zero. *)
Theorem print_statistics_no_files (w : world) :
  print_statistics [] w
  = (Raise ZeroDivisionError,
     printed [RunStatisticsHeader; TotalFilesProcessed 0;
              FilesWithTagsUpdated 0; FilesWithExistingTags 0;
              FilesThatFailed 0; PerformanceStatisticsHeader;
              TotalRunTime (run_time_of w)] w).
Proof.
  destruct w as [files ds b o q t st nw out].
  unfold print_statistics, truediv, bind, print, raise, printed, run_time_of.
  cbn. by rewrite <- !app_assoc.
Qed.

(** ** The merge *)

Lemma correct_tag_prefixed t : startswith (correct_tag t) [hash] = true.
Proof.
  unfold correct_tag. destruct (startswith t [hash]) eqn:E; [done|].
  cbn [startswith]. by rewrite N.eqb_refl.
Qed.

Lemma correct_tag_single t :
  one_hash_input t = true -> single_hash (correct_tag t) = true.
Proof.
  unfold one_hash_input, correct_tag.
  destruct (startswith t [hash]); [done|].
  intros H. cbn [single_hash]. by rewrite N.eqb_refl, H.
Qed.

Lemma extract_existing_tags_no_hash content :
  Forall (fun t => forallb (fun c => negb (c =? hash)) t = true)
    (extract_existing_tags content).
Proof.
  unfold extract_existing_tags.
  destruct (Re.search Re.tags_pattern content) as [[i m]|]; [|constructor].
  apply List.Forall_map, Forall_forall.
  intros t [Ht _]%list_elem_of_In%filter_In. apply strip_forallb.
  pose proof (split_pieces_plain hash (Re.group1 m)) as Hall.
  rewrite Forall_forall in Hall. by apply Hall, list_elem_of_In.
Qed.

Lemma prefixed_not_existing content t :
  startswith t [hash] = true ->
  contains (extract_existing_tags content) t = false.
Proof.
  intros Ht. unfold contains.
  induction (extract_existing_tags_no_hash content) as [|x l Hx _ IH]; [done|].
  cbn [existsb]. rewrite IH, orb_false_r.
  unfold eqb. apply bool_decide_eq_false. intros <-.
  destruct t as [|c t]; [done|].
  cbn [startswith forallb] in Ht, Hx. destruct (c =? hash); done.
Qed.

(** C7 fails on the code.  The existing tags come from
    [extract_existing_tags] without their [#], the suggested tags carry it,
    and the test [tag not in existing_tags] of line 63 compares them before
    the correction: a suggested tag that starts with [#] is never found
    among the existing tags, and one that is already on the note is added
    again.  (On tags that both carry the [#] the comparison works.) *)
Theorem merge_tags_keeps_duplicate :
  (forall content suggested,
      Forall (fun t => startswith t [hash] = true) suggested ->
      merge_tags (extract_existing_tags content) suggested
      = take 10 (map correct_tag (extract_existing_tags content) ++ suggested))
  /\ (let w := Examples.one_note Examples.tagged_note
                 [Examples.says "#b #c"] true in
      extract_existing_tags Examples.tagged_note = [U "a"; U "b"]
      /\ merge_tags [U "a"; U "b"] [U "#b"; U "#c"]
         = [U "#a"; U "#b"; U "#b"; U "#c"]
      /\ fst (process_file Examples.a_md 3 w)
         = Ok {| file := Examples.a_md; status := tags_updated;
                 tags := [U "#a"; U "#b"; U "#b"; U "#c"] |}
      /\ data <$> fs (snd (process_file Examples.a_md 3 w)) !! Examples.a_md
         = Some (U "note" ++ nl :: U "Tags: #a #b #b #c")
      /\ merge_tags [U "#a"; U "#b"] [U "#b"; U "#c"]
         = [U "#a"; U "#b"; U "#c"]).
Proof.
  split; [|vm_compute; done].
  intros content suggested Hall. unfold merge_tags. f_equal.
  rewrite map_app. f_equal.
  induction Hall as [|t l Ht _ IH]; [done|].
  cbn [List.filter map]. rewrite (prefixed_not_existing _ _ Ht). cbn [negb map].
  rewrite IH. unfold correct_tag at 1. by rewrite Ht.
Qed.

Lemma merge_tags_keeps_duplicate_witness :
  merge_tags (extract_existing_tags Examples.tagged_note) [U "#b"; U "#c"]
  = take 10 (map correct_tag (extract_existing_tags Examples.tagged_note)
               ++ [U "#b"; U "#c"]).
Proof.
  apply (proj1 merge_tags_keeps_duplicate Examples.tagged_note
           [U "#b"; U "#c"]).
  repeat constructor.
Defined.

(** C8, as stated, fails: a suggested tag that begins with two [#] is kept
    as it is. *)
Lemma merge_tags_double_hash :
  merge_tags [] [U "##a"] = [U "##a"]
  /\ forallb single_hash (merge_tags [] [U "##a"]) = false.
Proof. split; reflexivity. Qed.

(** C8 (amended).  For every pair of input tag sequences of any lengths, the
    merged sequence has at most 10 elements and every element starts with
    [#] (with exactly one [#] when every input tag has one [#] in front or
    none); merging 9 existing tags with suggested tags of which the first
    is not among them gives exactly 10: the 9 existing tags first, then the
    first suggested tag. *)
Theorem merge_tags_bounded (existing suggested : list str) :
  (length (merge_tags existing suggested) <= 10)%nat
  /\ Forall (fun t => startswith t [hash] = true) (merge_tags existing suggested)
  /\ (Forall (fun t => one_hash_input t = true) (existing ++ suggested) ->
      Forall (fun t => single_hash t = true) (merge_tags existing suggested))
  /\ (forall t rest,
        length existing = 9%nat ->
        suggested = t :: rest ->
        contains existing t = false ->
        merge_tags existing suggested
        = map correct_tag existing ++ [correct_tag t]
        /\ length (merge_tags existing suggested) = 10%nat).
Proof.
  unfold merge_tags. split; [|split; [|split]].
  - rewrite length_take. lia.
  - apply Forall_take, List.Forall_map, Forall_forall.
    intros t _. apply correct_tag_prefixed.
  - intros Hin. apply Forall_take, List.Forall_map.
    apply Forall_app in Hin as [He Hs]. apply Forall_app. split.
    + eapply Forall_impl; [exact He|]. intros t. apply correct_tag_single.
    + apply Forall_forall. intros t [Ht _]%list_elem_of_In%filter_In.
      apply correct_tag_single. rewrite Forall_forall in Hs.
      by apply Hs, list_elem_of_In.
  - intros t rest Hnine -> Hnew. cbn [List.filter]. rewrite Hnew. cbn [negb].
    rewrite map_app. cbn [map].
    change (?a ++ ?x :: ?b) with (a ++ [x] ++ b). rewrite app_assoc.
    assert (Hten : length (map correct_tag existing ++ [correct_tag t]) = 10%nat)
      by (rewrite length_app, length_map, Hnine; done).
    rewrite take_app_length' by (symmetry; exact Hten). by split.
Qed.

Lemma merge_tags_bounded_witness :
  let existing := [U "#1"; U "#2"; U "#3"; U "#4"; U "#5"; U "#6"; U "#7";
                   U "#8"; U "#9"] in
  let suggested := [U "#a"; U "#b"; U "#c"; U "#d"; U "#e"; U "#f"; U "#g";
                    U "#h"; U "#i"] in
  merge_tags existing suggested = existing ++ [U "#a"]
  /\ length (merge_tags existing suggested) = 10%nat
  /\ Forall (fun t => single_hash t = true) (merge_tags existing suggested).
Proof.
  intros existing suggested.
  destruct (merge_tags_bounded existing suggested) as (_ & _ & Hsingle & Hnine).
  destruct (Hnine (U "#a") (tl suggested)) as [Heq Hlen]; try reflexivity.
  split; [exact Heq|]. split; [exact Hlen|].
  apply Hsingle. repeat constructor.
Defined.

(** ** [scan_directory] *)

Lemma dirtree_forall_ind (P : dirtree -> Prop) :
  (forall name subdirs files, Forall P subdirs -> P (Dir name subdirs files)) ->
  forall t, P t.
Proof.
  intros H. fix IH 1. intros [name subdirs files]. apply H.
  induction subdirs as [|t l IHl]; constructor; [apply IH|apply IHl].
Qed.

Lemma process_all_app l1 l2 acc w :
  process_all (l1 ++ l2) acc w
  = bind (process_all l1 acc) (process_all l2) w.
Proof.
  revert acc w. induction l1 as [|p l1 IH]; intros acc w; [done|].
  cbn [app process_all]. unfold bind at 1 2 3.
  destruct (process_file p default_retry_limit w) as [[o|e] w1]; [|done].
  exact (IH _ _).
Qed.

Lemma process_files_flat root files acc w :
  process_files root files acc w
  = process_all
      (map (path_join root) (List.filter (fun f => endswith f (U ".md")) files))
      acc w.
Proof.
  revert acc w. induction files as [|f files IH]; intros acc w; [done|].
  cbn [process_files List.filter].
  destruct (endswith f (U ".md")); [|apply IH].
  cbn [map process_all]. unfold bind.
  destruct (process_file _ _ w) as [[o|e] w1]; [|done].
  apply IH.
Qed.

Lemma bind_ext {A B} (m m' : M A) (k k' : A -> M B) w :
  m w = m' w -> (forall a w1, k a w1 = k' a w1) -> bind m k w = bind m' k' w.
Proof.
  intros Hm Hk. unfold bind. rewrite Hm.
  destruct (m' w) as [[a|e] w1]; [apply Hk|done].
Qed.

(** The nested loops of [scan_directory] process the markdown files one
    after the other, in the order of [md_paths]. *)
Lemma walk_flat t :
  forall root acc w, walk t root acc w = process_all (md_paths t root) acc w.
Proof.
  induction t as [name subdirs files IHsub] using dirtree_forall_ind.
  intros root acc w. cbn [walk md_paths].
  rewrite process_all_app.
  apply bind_ext; [apply process_files_flat|].
  clear acc w.
  induction IHsub as [|sub l Hsub _ IHl]; intros acc w; [done|].
  destruct sub as [d sd fl].
  destruct (keep_dir d); [|apply IHl].
  rewrite process_all_app.
  apply bind_ext; [apply Hsub|apply IHl].
Qed.

(** C5, as stated, fails: for a root that is no directory the walk raises
    nothing and visits nothing; what [scan_directory] raises in the end is
    the division by zero of [print_statistics]. *)
Lemma scan_missing_directory :
  let w := Examples.one_note Examples.plain_note [] false in
  walk_directory (U "/missing") w = (Ok [], w)
  /\ fst (scan_directory (U "/missing") w) = Raise ZeroDivisionError
  /\ fst (scan_directory (U "/missing") w) <> Raise FileNotFoundError.
Proof. vm_compute. by repeat split. Qed.

(** C5 (amended).  For every root directory path that does not exist, the
    walk of [scan_directory] raises no error: it completes without visiting
    any file, leaving the world as it is, and [scan_directory] goes on to
    [print_statistics] with no outcome at all. *)
Theorem scan_directory_missing_root (w : world) (directory : str) :
  dirs w !! directory = None ->
  walk_directory directory w = (Ok [], w)
  /\ scan_directory directory w
     = print_statistics [] (printed [ScanningDirectory directory] w).
Proof.
  intros H. split.
  - unfold walk_directory. by rewrite H.
  - unfold scan_directory, bind at 1 2, print, walk_directory, printed.
    destruct w; cbn in *. by rewrite H.
Qed.

Lemma scan_directory_missing_root_witness :
  let w := Examples.one_note Examples.plain_note [] false in
  walk_directory (U "/missing") w = (Ok [], w)
  /\ scan_directory (U "/missing") w
     = print_statistics [] (printed [ScanningDirectory (U "/missing")] w).
Proof.
  intros w. apply (scan_directory_missing_root w (U "/missing")).
  reflexivity.
Defined.

(** C6, as stated, fails: a note that cannot be read makes [process_file]
    raise, the scan of the vault raises with it, and the note that comes
    next is never processed. *)
Lemma unreadable_note_aborts_scan :
  fst (process_file Examples.a_md 3 Examples.locked_vault)
    = Raise PermissionError
  /\ fst (scan_directory Examples.vault Examples.locked_vault)
    = Raise PermissionError
  /\ stdout (snd (scan_directory Examples.vault Examples.locked_vault))
    = [ScanningDirectory Examples.vault; ProcessingFile Examples.a_md].
Proof. vm_compute. by repeat split. Qed.

(** C6 (amended).  A file I/O error is not caught at [process_file]: when the
    file is missing or unreadable [process_file] raises at once, when the
    file is not writable the write step raises, and an exception that
    [process_file] raises on a file goes through [scan_directory] as it is,
    so that the files that come after are not processed and no statistics
    are printed. *)
Theorem file_errors_propagate :
  (forall w file_path retry_limit,
      fs w !! file_path = None ->
      process_file file_path retry_limit w
      = (Raise FileNotFoundError, printed [ProcessingFile file_path] w))
  /\ (forall w file_path retry_limit f,
      fs w !! file_path = Some f ->
      readable f = false ->
      process_file file_path retry_limit w
      = (Raise PermissionError, printed [ProcessingFile file_path] w))
  /\ (forall w file_path content existing suggested f new_content,
      rewrite_content content (join [space] (merge_tags existing suggested))
        = Ok new_content ->
      fs w !! file_path = Some f ->
      writable f = false ->
      merge_and_write file_path content existing suggested w
      = (Raise PermissionError, w))
  /\ (forall w directory t before p after outcomes w1 e w2,
      dirs w !! directory = Some t ->
      md_paths t directory = before ++ p :: after ->
      process_all before [] (printed [ScanningDirectory directory] w)
        = (Ok outcomes, w1) ->
      process_file p default_retry_limit w1 = (Raise e, w2) ->
      scan_directory directory w = (Raise e, w2)).
Proof.
  repeat split.
  - intros [files ds b o q t st nw out] file_path retry_limit Hf.
    cbn [fs] in Hf. run. by rewrite Hf.
  - intros [files ds b o q t st nw out] file_path retry_limit f Hf Hr.
    cbn [fs] in Hf. run. by rewrite Hf, Hr.
  - intros w file_path content existing suggested f new_content Hnew Hf Hw.
    unfold merge_and_write, bind, lift, write_file.
    by rewrite Hnew, Hf, Hw.
  - intros w directory t before p after outcomes w1 e w2 Ht Hpaths Hbefore Hp.
    unfold scan_directory, bind at 1 2, print, walk_directory.
    change (set_stdout (stdout w ++ [ScanningDirectory directory]) w)
      with (printed [ScanningDirectory directory] w).
    replace (dirs (printed [ScanningDirectory directory] w) !! directory)
      with (Some t) by (by destruct w).
    rewrite walk_flat, Hpaths, process_all_app.
    unfold bind at 1. rewrite Hbefore. cbn [process_all].
    unfold bind at 1. by rewrite Hp.
Qed.

Lemma file_errors_propagate_witness :
  process_file Examples.a_md 3 Examples.locked_vault
    = (Raise PermissionError,
       printed [ProcessingFile Examples.a_md] Examples.locked_vault)
  /\ scan_directory Examples.vault Examples.locked_vault
    = (Raise PermissionError,
       printed [ProcessingFile Examples.a_md]
         (printed [ScanningDirectory Examples.vault] Examples.locked_vault)).
Proof.
  destruct file_errors_propagate as (_ & Hread & _ & Hscan).
  split.
  - apply (Hread Examples.locked_vault Examples.a_md 3%nat
             (Examples.locked_file Examples.plain_note)); reflexivity.
  - apply (Hscan Examples.locked_vault Examples.vault
             (Dir [] [] [U "a.md"; U "b.md"]) [] Examples.a_md
             [Examples.b_md] []
             (printed [ScanningDirectory Examples.vault] Examples.locked_vault)
             PermissionError).
    + reflexivity.
    + reflexivity.
    + reflexivity.
    + apply (Hread _ Examples.a_md 3%nat
               (Examples.locked_file Examples.plain_note)); reflexivity.
Defined.

(** ** A tag line on the first line *)

(** C10.  For every content whose [Tags:] line is its very first line, so
    that no newline stands before it and the marker of the pattern occurs
    nowhere in the content, [extract_existing_tags] returns the empty
    sequence, and the rewrite appends a second [Tags:] line at the end of
    the content instead of replacing the one on the first line; this is the
    text that [process_file] writes to the note when the backend suggests
    tags (a text that cannot be encoded is not written: the write raises and
    leaves the note empty). *)
Theorem first_line_tags_overlooked (rest tag_string : str) :
  occurs marker (U "Tags:" ++ rest) = false ->
  let content := U "Tags:" ++ rest in
  extract_existing_tags content = []
  /\ rewrite_content content tag_string
     = Ok (content ++ nl :: U "Tags: " ++ tag_string)
  /\ (forall w w1 file_path f suggested retry_limit,
        fs w !! file_path = Some f ->
        data f = content ->
        readable f = true ->
        writable f = true ->
        get_suggested_tags content
          (printed [ProcessingFile file_path; LessThan9ExistingTags] w)
          = (Ok (Some suggested), w1) ->
        suggested <> [] ->
        (length suggested <= 10)%nat ->
        let new_content :=
          content ++ nl :: U "Tags: " ++ join [space] (merge_tags [] suggested) in
        exists w2,
          process_file file_path (S retry_limit) w
          = (if encodable new_content
             then Ok {| file := file_path; status := tags_updated;
                        tags := merge_tags [] suggested |}
             else Raise UnicodeEncodeError, w2)
          /\ data <$> fs w2 !! file_path
             = Some (if encodable new_content then new_content else [])).
Proof.
  intros H content.
  assert (Hnone : Re.search Re.tags_pattern content = None)
    by apply (search_absent _ H).
  assert (Hextract : extract_existing_tags content = [])
    by (unfold extract_existing_tags; by rewrite Hnone).
  assert (Hrewrite : forall ts,
             rewrite_content content ts = Ok (content ++ nl :: U "Tags: " ++ ts))
    by (intros ts; unfold rewrite_content; by rewrite Hnone).
  split; [exact Hextract|]. split; [apply Hrewrite|].
  intros w w1 file_path f suggested retry_limit Hf Hdata Hr Hw Hcall Hne Hlen.
  assert (Hfew : (length (extract_existing_tags (data f)) < 9)%nat)
    by (rewrite Hdata, Hextract; cbn; lia).
  rewrite (process_file_needs_tags _ _ _ _ Hf Hr Hfew), Hdata, Hextract.
  rewrite (retry_loop_accepts _ _ _ _ _ _ _ Hcall Hne Hlen).
  assert (Hf1 : fs w1 !! file_path = Some f).
  { pose proof (get_suggested_tags_fs content
                  (printed [ProcessingFile file_path; LessThan9ExistingTags] w))
      as Hfs.
    rewrite Hcall in Hfs. cbn [snd] in Hfs. rewrite Hfs. by destruct w. }
  intros new_content.
  destruct (encodable new_content) eqn:Henc.
  - rewrite (merge_and_write_writes _ _ _ _ _ _ _ Hf1 Hw (Hrewrite _) Henc).
    eexists. split; [reflexivity|].
    unfold printed, set_stdout, set_fs. cbn [fs].
    by rewrite lookup_insert_eq.
  - rewrite (merge_and_write_empties _ _ _ _ _ _ _ Hf1 Hw (Hrewrite _) Henc).
    eexists. split; [reflexivity|].
    unfold set_fs. cbn [fs]. by rewrite lookup_insert_eq.
Qed.

Lemma first_line_tags_overlooked_witness :
  extract_existing_tags (U "Tags:" ++ U " #a #b") = []
  /\ rewrite_content (U "Tags:" ++ U " #a #b") (U "#c #d")
     = Ok ((U "Tags:" ++ U " #a #b") ++ nl :: U "Tags: " ++ U "#c #d").
Proof.
  destruct (first_line_tags_overlooked (U " #a #b") (U "#c #d"))
    as (Hextract & Hrewrite & _).
  - reflexivity.
  - split; [exact Hextract|exact Hrewrite].
Defined.

(** * Further properties *)
Import More.

(** ** The parser *)

Lemma extract_at_marker pre rest :
  occurs marker pre = false ->
  extract_existing_tags (pre ++ marker ++ rest) = tags_of_value (tags_value rest).
Proof.
  intros H. unfold extract_existing_tags. by rewrite (search_first _ _ H).
Qed.

Lemma search_group s i m :
  Re.search Re.tags_pattern s = Some (i, m) ->
  exists rest, Re.group1 m = tags_value rest.
Proof.
  revert i. induction s as [|x s IH]; intros i.
  - cbn [Re.search]. by rewrite match_here_tags.
  - cbn [Re.search]. rewrite match_here_tags.
    destruct (startswith (x :: s) marker).
    + intros [= _ <-]. by eexists.
    + destruct (Re.search Re.tags_pattern s) as [[j m']|]; [|done].
      intros [= _ <-]. by apply (IH j).
Qed.

Lemma line_of_one_line s : forallb Re.any (line_of s) = true.
Proof.
  induction s as [|c s IH]; [done|].
  cbn [line_of]. destruct (Re.any c) eqn:E; [|done].
  cbn [forallb]. by rewrite E, IH.
Qed.

Lemma split_forallb (g : char -> bool) sep s :
  forallb g s = true -> Forall (fun p => forallb g p = true) (split sep s).
Proof.
  induction s as [|c s IH]; [by repeat constructor|].
  cbn [forallb split]. intros [Hc Hs]%andb_prop. specialize (IH Hs).
  destruct (c =? sep); [by constructor|].
  destruct (split sep s) as [|p ps].
  - repeat constructor. cbn [forallb]. by rewrite Hc.
  - apply Forall_cons in IH as [Hp Hps]. constructor; [|done].
    cbn [forallb]. by rewrite Hc, Hp.
Qed.

Lemma lstrip_by_head f s :
  match lstrip_by f s with c :: _ => f c = false | [] => True end.
Proof.
  induction s as [|c s IH]; [done|].
  cbn [lstrip_by]. by destruct (f c) eqn:E.
Qed.

Lemma lstrip_by_suffix f s : exists pre, s = pre ++ lstrip_by f s.
Proof.
  induction s as [|c s [pre IH]]; [by exists []|].
  cbn [lstrip_by]. destruct (f c).
  - exists (c :: pre). cbn [app]. by rewrite <- IH.
  - by exists [].
Qed.

Lemma strip_by_idempotent f s : strip_by f (strip_by f s) = strip_by f s.
Proof.
  unfold strip_by, rstrip_by.
  set (r := rev (lstrip_by f (rev s))).
  assert (Hr : match rev r with c :: _ => f c = false | [] => True end).
  { unfold r. rewrite rev_involutive. apply lstrip_by_head. }
  assert (Hl : match rev (lstrip_by f r) with
               | c :: _ => f c = false | [] => True end).
  { destruct (lstrip_by_suffix f r) as [pre Hpre].
    destruct (lstrip_by f r) as [|c l] eqn:E; [done|].
    rewrite Hpre, rev_app_distr in Hr.
    destruct (rev (c :: l)) as [|d l'] eqn:E'; [|done].
    apply (f_equal (@length _)) in E'. rewrite length_rev in E'. done. }
  rewrite (lstrip_by_kept f (rev (lstrip_by f r)) Hl), rev_involutive.
  apply lstrip_by_kept, lstrip_by_head.
Qed.

(** X1.  A content in which the marker of the pattern, a newline followed by
    [Tags:], occurs nowhere has no existing tags. *)
Theorem extract_existing_tags_absent (content : str) :
  occurs marker content = false -> extract_existing_tags content = [].
Proof.
  intros H. unfold extract_existing_tags. by rewrite (search_absent _ H).
Qed.

Lemma extract_existing_tags_absent_witness :
  extract_existing_tags (U "Tags are nice." ++ nl :: U "No Tags here") = [].
Proof. apply extract_existing_tags_absent. reflexivity. Defined.

Lemma extract_bare (content : str) :
  Forall bare_tag (extract_existing_tags content).
Proof.
  unfold extract_existing_tags.
  destruct (Re.search Re.tags_pattern content) as [[i m]|] eqn:E; [|constructor].
  destruct (search_group _ _ _ E) as [rest ->].
  apply List.Forall_map, Forall_forall.
  intros t [Ht Hne]%list_elem_of_In%filter_In.
  pose proof (split_pieces_plain hash (tags_value rest)) as Hhash.
  pose proof (split_forallb Re.any hash (tags_value rest)
                (line_of_one_line _)) as Hline.
  rewrite Forall_forall in Hhash, Hline.
  apply list_elem_of_In in Ht.
  repeat split.
  - by destruct (strip t).
  - apply strip_by_idempotent.
  - by apply strip_forallb, Hhash.
  - by apply strip_forallb, Hline.
Qed.

(** X2.  Whatever the content, every tag that [extract_existing_tags]
    returns is not empty, is trimmed, and contains neither a [#] nor a line
    break. *)
Theorem extract_existing_tags_bare (content : str) :
  Forall bare_tag (extract_existing_tags content).
Proof. apply extract_bare. Qed.

(** X3.  The value of the tag line is the first text behind the first
    marker that is no blank, up to the end of its line, also when that text
    stands on a later line than [Tags:] (the [\s*] of the pattern runs over
    line breaks); what stands before the marker and what follows that line
    has no influence on the tags. *)
Theorem extract_existing_tags_value (pre ws v tail : str) :
  occurs marker pre = false ->
  forallb isspace ws = true ->
  starts_solid v = true ->
  forallb Re.any v = true ->
  Re.at_end_of_line tail = true ->
  extract_existing_tags (pre ++ marker ++ ws ++ v ++ tail) = tags_of_value v.
Proof.
  intros Hpre Hws Hv Hline Htail.
  rewrite (extract_at_marker _ _ Hpre). unfold tags_value.
  rewrite (lstrip_by_app _ _ _ Hws).
  rewrite lstrip_by_kept.
  - by rewrite (line_of_app _ _ Hline Htail).
  - destruct v as [|c v]; [done|]. cbn in Hv |- *. by destruct (isspace c).
Qed.

Lemma extract_existing_tags_value_witness :
  extract_existing_tags
    (U "note" ++ marker ++ [nl; nl] ++ U "# Heading" ++ nl :: U "Tags: #x")
  = [U "Heading"].
Proof.
  apply (extract_existing_tags_value (U "note") [nl; nl] (U "# Heading")
           (nl :: U "Tags: #x")); reflexivity.
Defined.

(** ** The rewrite *)

Lemma tokenize_plain s :
  no_backslash s = true -> Re.tokenize s = Ok (map Re.Plain s).
Proof.
  induction s as [|c s IH]; [done|].
  unfold no_backslash. cbn [forallb Re.tokenize map].
  intros [Hc Hs]%andb_prop. destruct (c =? backslash); [done|].
  by rewrite (IH Hs).
Qed.

Lemma parse_pieces_plain groups s :
  Re.parse_pieces groups None (map Re.Plain s) = Ok (map Re.Chr s).
Proof.
  induction s as [|c s IH]; [done|].
  cbn [map Re.parse_pieces]. by rewrite IH.
Qed.

Lemma parse_template_plain groups s :
  no_backslash s = true -> Re.parse_template groups s = Ok (map Re.Chr s).
Proof.
  intros H. unfold Re.parse_template. rewrite (tokenize_plain _ H).
  apply parse_pieces_plain.
Qed.

Lemma expand_plain s whole g1 : Re.expand (map Re.Chr s) whole g1 = s.
Proof.
  unfold Re.expand. induction s as [|c s IH]; [done|].
  cbn [map concat app]. by rewrite IH.
Qed.

Lemma sub_from_skip pieces k :
  forall s,
    Re.sub_from Re.tags_pattern pieces s k
    = Re.sub_from Re.tags_pattern pieces (drop k s) 0.
Proof.
  induction k as [|k IH]; intros s.
  - by rewrite drop_0.
  - destruct s as [|x s]; [|cbn [Re.sub_from drop]; apply IH].
    cbn [Re.sub_from drop]. by rewrite match_here_tags.
Qed.

Lemma sub_from_absent pieces s :
  occurs marker s = false -> Re.sub_from Re.tags_pattern pieces s 0 = s.
Proof.
  induction s as [|x s IH].
  - intros _. cbn [Re.sub_from]. by rewrite match_here_tags.
  - cbn [occurs]. intros [H1 H2]%orb_false_elim.
    cbn [Re.sub_from]. rewrite match_here_tags, H1. by rewrite (IH H2).
Qed.

Lemma sub_from_before pieces pre rest :
  occurs marker pre = false ->
  Re.sub_from Re.tags_pattern pieces (pre ++ marker ++ rest) 0
  = pre ++ Re.sub_from Re.tags_pattern pieces (marker ++ rest) 0.
Proof.
  induction pre as [|x pre IH]; [done|].
  cbn [occurs]. intros [H1 H2]%orb_false_elim.
  change ((x :: pre) ++ marker ++ rest) with (x :: (pre ++ marker ++ rest)).
  cbn [Re.sub_from]. rewrite match_here_tags.
  change (x :: pre ++ marker ++ rest) with ((x :: pre) ++ marker ++ rest).
  rewrite startswith_before_marker by done.
  cbn [app]. by rewrite (IH H2).
Qed.

Lemma leading_app cls ws r :
  forallb cls ws = true -> leading cls (ws ++ r) = (length ws + leading cls r)%nat.
Proof.
  induction ws as [|c ws IH]; [done|].
  cbn [forallb app leading length]. intros [-> H]%andb_prop.
  by rewrite (IH H).
Qed.

Lemma leading_solid v r : starts_solid v = true -> leading isspace (v ++ r) = 0%nat.
Proof.
  destruct v as [|c v]; [done|]. cbn. by destruct (isspace c).
Qed.

(** One tag line replaced: behind the new line the substitution goes on with
    the text that follows the old line. *)
Lemma sub_from_line ts ws v tail :
  forallb isspace ws = true ->
  starts_solid v = true ->
  forallb Re.any v = true ->
  Re.at_end_of_line tail = true ->
  Re.sub_from Re.tags_pattern (map Re.Chr ts) (marker ++ ws ++ v ++ tail) 0
  = ts ++ Re.sub_from Re.tags_pattern (map Re.Chr ts) tail 0.
Proof.
  intros Hws Hv Hline Htail.
  assert (Hvalue : tags_value (ws ++ v ++ tail) = v).
  { unfold tags_value. rewrite (lstrip_by_app _ _ _ Hws), lstrip_by_kept.
    - by apply line_of_app.
    - destruct v as [|c v]; [done|]. cbn in Hv |- *. by destruct (isspace c). }
  rewrite marker_chars. cbn [app Re.sub_from].
  change (10 :: 84 :: 97 :: 103 :: 115 :: 58 :: ws ++ v ++ tail)
    with ([10; 84; 97; 103; 115; 58] ++ ws ++ v ++ tail).
  rewrite <- marker_chars, match_here_tags, marker_chars.
  cbn [startswith N.eqb Pos.eqb andb app drop Re.span Re.group1 Nat.add].
  rewrite expand_plain, sub_from_skip. f_equal.
  rewrite !drop_0, Hvalue, (leading_app _ _ _ Hws), (leading_solid _ _ Hv).
  rewrite Nat.add_0_r, <- drop_drop. by rewrite !drop_app_length.
Qed.

(** X4.  On a note with one tag line the rewrite replaces the value of that
    line in place: for a tag string without a backslash the new text is the
    text before the marker, the new tag line, and the text that followed the
    old line, unchanged; the blanks and line breaks between [Tags:] and the
    old value are replaced with it. *)
Theorem rewrite_content_in_place (pre ws v tail tag_string : str) :
  occurs marker pre = false ->
  forallb isspace ws = true ->
  starts_solid v = true ->
  forallb Re.any v = true ->
  Re.at_end_of_line tail = true ->
  occurs marker tail = false ->
  no_backslash tag_string = true ->
  rewrite_content (pre ++ marker ++ ws ++ v ++ tail) tag_string
  = Ok (pre ++ nl :: U "Tags: " ++ tag_string ++ tail).
Proof.
  intros Hpre Hws Hv Hline Htail Hfree Hts.
  assert (Hplain : no_backslash (tags_line tag_string) = true)
    by (unfold tags_line, no_backslash in *; cbn; exact Hts).
  unfold rewrite_content. rewrite (search_first _ _ Hpre).
  unfold Re.sub. rewrite (parse_template_plain _ _ Hplain). cbn [rmap].
  rewrite (sub_from_before _ _ _ Hpre).
  rewrite (sub_from_line _ _ _ _ Hws Hv Hline Htail).
  rewrite (sub_from_absent _ _ Hfree).
  unfold tags_line. cbn [app]. by rewrite <- !app_assoc.
Qed.

Lemma rewrite_content_in_place_witness :
  rewrite_content
    (U "note" ++ marker ++ U "  " ++ U "#old" ++ nl :: U "more text")
    (U "#a #b")
  = Ok (U "note" ++ nl :: U "Tags: " ++ U "#a #b" ++ nl :: U "more text").
Proof.
  apply (rewrite_content_in_place (U "note") (U "  ") (U "#old")
           (nl :: U "more text") (U "#a #b")); reflexivity.
Defined.

(** X5.  The rewrite replaces every tag line, not only the first one that
    [extract_existing_tags] reads: on a note with two tag lines both get the
    new tags. *)
Theorem rewrite_content_every_line (pre ws1 v1 mid ws2 v2 tail ts : str) :
  occurs marker pre = false ->
  forallb isspace ws1 = true -> starts_solid v1 = true ->
  forallb Re.any v1 = true ->
  Re.at_end_of_line mid = true -> occurs marker mid = false ->
  forallb isspace ws2 = true -> starts_solid v2 = true ->
  forallb Re.any v2 = true ->
  Re.at_end_of_line tail = true -> occurs marker tail = false ->
  no_backslash ts = true ->
  rewrite_content
    (pre ++ marker ++ ws1 ++ v1 ++ mid ++ marker ++ ws2 ++ v2 ++ tail) ts
  = Ok (pre ++ tags_line ts ++ mid ++ tags_line ts ++ tail).
Proof.
  intros Hpre Hws1 Hv1 Hl1 Hmid Hmidfree Hws2 Hv2 Hl2 Htail Hfree Hts.
  assert (Hplain : no_backslash (tags_line ts) = true)
    by (unfold tags_line, no_backslash in *; cbn; exact Hts).
  assert (Hmid' : Re.at_end_of_line (mid ++ marker ++ ws2 ++ v2 ++ tail) = true)
    by (destruct mid; [reflexivity|exact Hmid]).
  unfold rewrite_content. rewrite (search_first _ _ Hpre).
  unfold Re.sub. rewrite (parse_template_plain _ _ Hplain). cbn [rmap].
  rewrite (sub_from_before _ _ _ Hpre).
  rewrite (sub_from_line _ _ _ _ Hws1 Hv1 Hl1 Hmid').
  rewrite (sub_from_before _ _ _ Hmidfree).
  rewrite (sub_from_line _ _ _ _ Hws2 Hv2 Hl2 Htail).
  by rewrite (sub_from_absent _ _ Hfree).
Qed.

Lemma rewrite_content_every_line_witness :
  rewrite_content
    (U "note" ++ marker ++ U " " ++ U "#old" ++ (nl :: U "text") ++ marker
       ++ U " " ++ U "#other" ++ [])
    (U "#a")
  = Ok (U "note" ++ tags_line (U "#a") ++ (nl :: U "text")
          ++ tags_line (U "#a") ++ []).
Proof.
  apply (rewrite_content_every_line (U "note") (U " ") (U "#old")
           (nl :: U "text") (U " ") (U "#other") [] (U "#a")); reflexivity.
Defined.

Lemma startswith_split s p : startswith s p = true -> s = p ++ drop (length p) s.
Proof.
  revert s. induction p as [|a p IH]; intros s; [by rewrite drop_0|].
  destruct s as [|b s]; [done|]. cbn [startswith length drop app].
  intros [Hb Hs]%andb_prop. apply N.eqb_eq in Hb as ->. f_equal. by apply IH.
Qed.

Lemma startswith_app s r p : startswith s p = true -> startswith (s ++ r) p = true.
Proof.
  revert s. induction p as [|a p IH]; intros s; [done|].
  destruct s as [|b s]; [done|]. cbn [startswith app].
  intros [-> Hs]%andb_prop. by apply IH.
Qed.

(** A content in which the pattern is found splits at the first marker. *)
Lemma search_found_split s i m :
  Re.search Re.tags_pattern s = Some (i, m) ->
  exists pre rest, s = pre ++ marker ++ rest /\ occurs marker pre = false.
Proof.
  revert i m. induction s as [|x s IH]; intros i m.
  - cbn [Re.search]. by rewrite match_here_tags.
  - cbn [Re.search]. rewrite match_here_tags.
    destruct (startswith (x :: s) marker) eqn:E.
    + intros _. exists [], (drop 6 (x :: s)). split; [|done].
      by apply (startswith_split _ marker).
    + destruct (Re.search Re.tags_pattern s) as [[j m']|]; [|done].
      intros _. destruct (IH j m' eq_refl) as (pre & rest & -> & Hpre).
      exists (x :: pre), rest. split; [done|].
      cbn [occurs]. rewrite Hpre, orb_false_r.
      destruct (startswith (x :: pre) marker) eqn:E'; [|done].
      pose proof (startswith_app (x :: pre) (marker ++ rest) _ E') as H.
      cbn [app] in H. congruence.
Qed.

Lemma search_none_absent s :
  Re.search Re.tags_pattern s = None -> occurs marker s = false.
Proof.
  induction s as [|x s IH]; [done|].
  cbn [Re.search occurs]. rewrite match_here_tags.
  destruct (startswith (x :: s) marker); [done|].
  destruct (Re.search Re.tags_pattern s) as [[j m']|]; [done|].
  intros _. by rewrite IH.
Qed.

Lemma sub_from_marker ts rest :
  Re.sub_from Re.tags_pattern (map Re.Chr ts) (marker ++ rest) 0
  = ts ++ Re.sub_from Re.tags_pattern (map Re.Chr ts)
            (drop (leading isspace rest + length (tags_value rest)) rest) 0.
Proof.
  rewrite marker_chars. cbn [app Re.sub_from].
  change (10 :: 84 :: 97 :: 103 :: 115 :: 58 :: rest)
    with ([10; 84; 97; 103; 115; 58] ++ rest).
  rewrite <- marker_chars, match_here_tags, marker_chars.
  cbn [startswith N.eqb Pos.eqb andb app drop Re.span Re.group1 Nat.add].
  by rewrite expand_plain, sub_from_skip, !drop_0.
Qed.

Lemma drop_leading cls s : drop (leading cls s) s = lstrip_by cls s.
Proof.
  induction s as [|c s IH]; [done|].
  cbn [leading lstrip_by]. by destruct (cls c).
Qed.

Lemma drop_line_of s : Re.at_end_of_line (drop (length (line_of s)) s) = true.
Proof.
  induction s as [|c s IH]; [done|].
  cbn [line_of]. unfold Re.any at 1.
  destruct (c =? nl) eqn:E; cbn [negb length drop]; [|done].
  cbn [Re.at_end_of_line]. done.
Qed.

Lemma sub_from_end_of_line ts s :
  Re.at_end_of_line s = true ->
  Re.at_end_of_line
    (Re.sub_from Re.tags_pattern (map Re.Chr (tags_line ts)) s 0) = true.
Proof.
  destruct s as [|x s]; intros Hx.
  - cbn [Re.sub_from]. by rewrite match_here_tags.
  - destruct (startswith (x :: s) marker) eqn:E.
    + rewrite (startswith_split _ _ E), sub_from_marker. done.
    + cbn [Re.sub_from]. by rewrite match_here_tags, E.
Qed.

Lemma tags_of_value_tokens names :
  names <> [] ->
  Forall (fun n => token_name n = true) names ->
  tags_of_value (tokens names) = names.
Proof.
  intros Hne Hall. destruct names as [|n names]; [done|].
  unfold tags_of_value. rewrite (split_tokens _ _ Hall).
  cbn [List.filter]. change (truthy (strip [])) with false. cbv iota.
  by apply strip_pieces.
Qed.

Lemma tokens_solid names :
  names <> [] -> starts_solid (tokens names) = true.
Proof.
  destruct names as [|n names]; [done|]. intros _.
  unfold tokens. cbn [map join]. by destruct (map (cons hash) names).
Qed.

Lemma rewrite_extract_names (content : str) (names : list str) :
  names <> [] ->
  Forall (fun n => token_name n = true) names ->
  no_backslash (tokens names) = true ->
  exists new_content,
    rewrite_content content (tokens names) = Ok new_content
    /\ extract_existing_tags new_content = names.
Proof.
  intros Hne Hall Hplain.
  assert (Hread : forall pre tail,
             occurs marker pre = false -> Re.at_end_of_line tail = true ->
             extract_existing_tags
               (pre ++ marker ++ [space] ++ tokens names ++ tail) = names).
  { intros pre tail Hpre Htail.
    rewrite (extract_at_marker _ _ Hpre). unfold tags_value.
    cbn [app lstrip_by]. change (isspace space) with true. cbv iota.
    rewrite lstrip_by_kept.
    - rewrite (line_of_app _ _ (tokens_one_line _ Hall) Htail).
      by apply tags_of_value_tokens.
    - pose proof (tokens_solid _ Hne) as Hs.
      destruct (tokens names) as [|c t]; [done|].
      cbn in Hs |- *. by destruct (isspace c). }
  assert (Hline : tags_line (tokens names)
                  = marker ++ [space] ++ tokens names) by done.
  unfold rewrite_content.
  destruct (Re.search Re.tags_pattern content) as [[i m]|] eqn:E.
  - destruct (search_found_split _ _ _ E) as (pre & rest & -> & Hpre).
    assert (Hp : no_backslash (tags_line (tokens names)) = true)
      by (unfold tags_line, no_backslash in *; cbn; exact Hplain).
    unfold Re.sub. rewrite (parse_template_plain _ _ Hp). cbn [rmap].
    eexists. split; [reflexivity|].
    rewrite (sub_from_before _ _ _ Hpre), sub_from_marker, Hline.
    rewrite <- !app_assoc. apply Hread; [done|].
    rewrite <- Hline. apply sub_from_end_of_line.
    rewrite <- drop_drop, drop_leading. apply drop_line_of.
  - eexists. split; [reflexivity|].
    specialize (Hread content [] (search_none_absent _ E) eq_refl).
    rewrite app_nil_r in Hread. by rewrite Hline.
Qed.

(** X6.  What the rewrite writes, the parser reads back.  For tag names
    without blanks, [#] and backslashes, and for every content: the rewrite
    with the tag string [#a #b #c] succeeds, and [extract_existing_tags] of
    the new text returns [a, b, c], whatever tag lines the old text had. *)
Theorem rewrite_then_extract (content : str) (names : list str) :
  names <> [] ->
  Forall (fun n => token_name n = true) names ->
  no_backslash (tokens names) = true ->
  exists new_content,
    rewrite_content content (tokens names) = Ok new_content
    /\ extract_existing_tags new_content = names.
Proof. apply rewrite_extract_names. Qed.

Lemma rewrite_then_extract_witness :
  exists new_content,
    rewrite_content (U "note" ++ nl :: U "Tags:" ++ nl :: U "old line")
      (tokens [U "a"; U "b"]) = Ok new_content
    /\ extract_existing_tags new_content = [U "a"; U "b"].
Proof.
  apply (rewrite_then_extract _ [U "a"; U "b"]).
  - discriminate.
  - repeat constructor.
  - reflexivity.
Defined.



Lemma last_tail {A} (x : A) l y : l <> [] -> last (x :: l) = y -> last l = y.
Proof. destruct l; [done|]. by intros _. Qed.









(** ** The backends *)

Lemma split_ws_from_solid s :
  forall cur,
    no_space cur = true ->
    Forall (fun t => t <> [] /\ no_space t = true) (split_ws_from cur s).
Proof.
  assert (Hrev : forall c cur, no_space (c :: cur) = true ->
                   rev (c :: cur) <> [] /\ no_space (rev (c :: cur)) = true).
  { intros c cur H. split.
    - intros E. apply (f_equal (@length _)) in E.
      rewrite length_rev in E. done.
    - unfold no_space in *. by rewrite forallb_rev. }
  induction s as [|c s IH]; intros cur Hcur.
  - cbn [split_ws_from]. destruct cur as [|d cur]; [constructor|].
    constructor; [by apply Hrev|constructor].
  - cbn [split_ws_from]. destruct (isspace c) eqn:E.
    + destruct cur as [|d cur]; [by apply IH|].
      constructor; [by apply Hrev|by apply IH].
    + apply IH. unfold no_space in *. cbn [forallb]. by rewrite E, Hcur.
Qed.

Lemma strip_by_forallb (f g : char -> bool) s :
  forallb g s = true -> forallb g (strip_by f s) = true.
Proof.
  intros H. unfold strip_by, rstrip_by.
  apply lstrip_by_forallb. rewrite forallb_rev.
  apply lstrip_by_forallb. by rewrite forallb_rev.
Qed.

Lemma ollama_tag_normal t :
  no_space t = true ->
  single_hash (ollama_tag t) = true /\ no_space (ollama_tag t) = true.
Proof.
  intros Ht. unfold ollama_tag.
  set (x := strip_chars (U "# ") t).
  assert (Hx : startswith x [hash] = false).
  { unfold x, strip_chars, strip_by.
    pose proof (lstrip_by_head (fun c => existsb (N.eqb c) (U "# "))
                  (rstrip_by (fun c => existsb (N.eqb c) (U "# ")) t)) as H.
    destruct (lstrip_by _ _) as [|c l]; [done|].
    cbn [startswith]. destruct (N.eqb_spec c hash) as [->|]; [|done].
    by vm_compute in H. }
  rewrite Hx. split.
  - cbn [single_hash]. by rewrite N.eqb_refl, Hx.
  - unfold no_space in *. cbn [forallb].
    unfold x, strip_chars. by rewrite (strip_by_forallb _ _ _ Ht).
Qed.

(** X8.  The tags that [get_suggested_tags] returns are never empty strings
    and contain no blank; with the Ollama backend each of them begins with
    exactly one [#], while the Claude backend passes the words of the reply
    on as they are. *)
Theorem get_suggested_tags_solid (content : str) (w w' : world)
  (suggested : list str) :
  get_suggested_tags content w = (Ok (Some suggested), w') ->
  Forall (fun t => t <> [] /\ no_space t = true
                   /\ (use_ollama w = true -> single_hash t = true)) suggested
  /\ (use_ollama w = false ->
      exists text tokens rest,
        backend w = Response 200 (Generated text tokens) :: rest
        /\ suggested = split_ws (strip text)).
Proof.
  destruct w as [files ds b o q tk st nw out]. cbn [use_ollama backend].
  assert (Hwords : forall text,
             Forall (fun t => t <> [] /\ no_space t = true)
               (split_ws (strip text)))
    by (intros text; by apply split_ws_from_solid).
  destruct o; run;
    destruct b as [|[|status_code [text tokens|e]] b]; try done;
    destruct (N.eqb_spec status_code 200) as [->|]; try done;
    try (by destruct e).
  - intros [= <- _]. split; [|done].
    apply List.Forall_map. eapply Forall_impl; [apply Hwords|].
    intros t [Hne Ht]. destruct (ollama_tag_normal t Ht) as [H1 H2].
    split; [|done]. intros E. by rewrite E in H1.
  - intros [= <- _]. split.
    + eapply Forall_impl; [apply Hwords|]. by intros t [Hne Ht].
    + intros _. by eexists _, _, _.
Qed.

Lemma get_suggested_tags_solid_witness :
  Forall (fun t => t <> [] /\ no_space t = true
                   /\ (true = true -> single_hash t = true))
         [U "#a"; U "#b"].
Proof.
  apply (get_suggested_tags_solid Examples.plain_note
           (Examples.one_note Examples.plain_note [Examples.says " ##a# b "] true)
           (snd (get_suggested_tags Examples.plain_note
                   (Examples.one_note Examples.plain_note
                      [Examples.says " ##a# b "] true)))
           [U "#a"; U "#b"]).
  reflexivity.
Defined.

Lemma get_suggested_tags_frame content w :
  dirs (snd (get_suggested_tags content w)) = dirs w
  /\ use_ollama (snd (get_suggested_tags content w)) = use_ollama w
  /\ api_queries (snd (get_suggested_tags content w)) = api_queries w + 1.
Proof.
  destruct w as [files ds b o q t st nw out].
  destruct o; run; destruct b as [|[|status_code bd] b]; try done;
    destruct (status_code =? 200); try done;
    destruct bd as [text tokens|e]; try done; by destruct e.
Qed.

(** X9.  Every call of [get_suggested_tags] counts as one query, whether the
    backend answers, fails or refuses the connection; it consumes one reply
    and leaves the files alone.  The token counter changes only when a tag
    list is returned, and then the number that the reply reports is added to
    it as it is: a reply that reports a negative count takes the counter
    down. *)
Theorem get_suggested_tags_accounting (content : str) (w : world) :
  let r := get_suggested_tags content w in
  api_queries (snd r) = api_queries w + 1
  /\ fs (snd r) = fs w
  /\ backend (snd r) = tl (backend w)
  /\ match fst r with
     | Ok (Some _) =>
         exists text n rest,
           backend w = Response 200 (Generated text n) :: rest
     | _ => total_tokens (snd r) = total_tokens w
     end
  /\ (forall text n rest,
        backend w = Response 200 (Generated text n) :: rest ->
        total_tokens (snd r) = Qplus (total_tokens w) n)
  /\ (let low := set_backend [Response 200 (Generated (U "#a") (-5))] w in
      Qlt (total_tokens (snd (get_suggested_tags content low)))
          (total_tokens w)).
Proof.
  assert (Hlow : forall t : Q, Qlt (Qplus t (-5)) t).
  { intros t. rewrite <- (Qplus_0_r t) at 2. by apply Qplus_lt_r. }
  destruct w as [files ds b o q t st nw out].
  destruct o; run;
    (destruct b as [|[|status_code [text tokens|e]] b];
     [ | | destruct (N.eqb_spec status_code 200) as [->|]
         | destruct (status_code =? 200); [destruct e|] ]);
    cbn; repeat split; try done; try lia; try (by eexists _, _, _);
    try apply Hlow; intros ? ? ? ?; by simplify_eq.
Qed.

Lemma get_suggested_tags_accounting_witness :
  let w := Examples.one_note Examples.plain_note
             [Response 200 (Generated (U "#a") (-5))] false in
  total_tokens (snd (get_suggested_tags Examples.plain_note w))
  = Qplus (total_tokens w) (-5).
Proof.
  intros w.
  destruct (get_suggested_tags_accounting Examples.plain_note w)
    as (_ & _ & _ & _ & Hadd & _).
  apply (Hadd (U "#a") (-5)%Q []). reflexivity.
Defined.

(** ** What [process_file] does to the world *)

Lemma merge_tags_some existing suggested :
  suggested <> [] -> merge_tags existing suggested <> [].
Proof.
  intros Hs. unfold merge_tags.
  destruct existing as [|e existing]; [|done].
  destruct suggested as [|t suggested]; done.
Qed.

Lemma merge_and_write_cases file_path content existing suggested w r w' :
  is_Some (fs w !! file_path) ->
  merge_and_write file_path content existing suggested w = (r, w') ->
  dirs w' = dirs w /\ use_ollama w' = use_ollama w
  /\ api_queries w' = api_queries w
  /\ match r with
     | Raise e => files_after_raise file_path e w w'
     | Ok o =>
         o = {| file := file_path; status := tags_updated;
                tags := merge_tags existing suggested |}
         /\ exists new_content f',
              rewrite_content content
                (join [space] (merge_tags existing suggested)) = Ok new_content
              /\ encodable new_content = true
              /\ data f' = new_content
              /\ fs w' = <[file_path := f']> (fs w)
              /\ (forall f, fs w !! file_path = Some f ->
                            writable f = true /\ readable f' = readable f)
     end.
Proof.
  intros [f Hf].
  unfold merge_and_write, bind, lift, write_file, truncate_and_write, print, ret,
    files_after_raise.
  destruct (rewrite_content _ _) as [new_content|e];
    [|intros [= <- <-]; repeat split; by left].
  rewrite Hf.
  destruct (writable f) eqn:Hw; [|intros [= <- <-]; repeat split; by left].
  destruct (encodable new_content) eqn:Henc.
  - intros [= <- <-]. destruct w; cbn in *. repeat split.
    exists new_content,
      {| data := new_content; readable := readable f; writable := true |}.
    repeat split; by simplify_eq.
  - intros [= <- <-]. destruct w; cbn in *. repeat split.
    right. split; [done|]. by exists f.
Qed.

Lemma files_after_raise_fs file_path e w0 w w' :
  fs w = fs w0 ->
  files_after_raise file_path e w w' -> files_after_raise file_path e w0 w'.
Proof. unfold files_after_raise. by intros ->. Qed.

Lemma updated_by_fs file_path content existing w0 w w' o :
  fs w = fs w0 ->
  updated_by file_path content existing w w' o ->
  updated_by file_path content existing w0 w' o.
Proof. unfold updated_by. by intros ->. Qed.

Lemma retry_loop_cases file_path content existing remaining :
  forall w r w',
    is_Some (fs w !! file_path) ->
    retry_loop file_path content existing remaining w = (r, w') ->
    dirs w' = dirs w /\ use_ollama w' = use_ollama w
    /\ api_queries w <= api_queries w'
    /\ api_queries w' <= api_queries w + N.of_nat remaining
    /\ match r with
       | Raise e => files_after_raise file_path e w w'
       | Ok o =>
           (o = {| file := file_path; status := failed; tags := [] |}
            /\ fs w' = fs w)
           \/ updated_by file_path content existing w w' o
       end.
Proof.
  induction remaining as [|n IH]; intros w r w' Hsome.
  - cbn [retry_loop]. unfold bind, print, ret. intros [= <- <-].
    destruct w; cbn. repeat split; [lia..|by left].
  - cbn [retry_loop]. unfold bind at 1.
    pose proof (get_suggested_tags_frame content w) as (Hd & Ho & Hq).
    pose proof (get_suggested_tags_fs content w) as Hfs.
    destruct (get_suggested_tags content w) as [[suggested|e] w1];
      cbn [snd] in Hd, Ho, Hq, Hfs.
    + destruct suggested as [[|t ts]|].
      * unfold bind, print, ret. intros [= <- <-].
        destruct w1; cbn in *. repeat split; [done|done|lia|lia|by left].
      * destruct (10 <? length (t :: ts))%nat eqn:Hlen.
        -- unfold bind at 1, print. intros Hloop.
           assert (Hfs1 : fs (set_stdout (stdout w1 ++ [WarningMoreThan10Tags]) w1)
                          = fs w) by (by destruct w1).
           apply IH in Hloop as (Hd' & Ho' & Hq1 & Hq2 & Hr);
             [|by rewrite Hfs1].
           destruct w1; cbn in Hd', Ho', Hq1, Hq2, Hd, Ho, Hq.
           repeat split; [congruence|congruence|lia|lia|].
           destruct r as [o|e].
           ++ destruct Hr as [[-> Hfs']|Hup]; [left; split; [done|congruence]|].
              right. by apply (updated_by_fs _ _ _ _ _ _ _ Hfs1).
           ++ by apply (files_after_raise_fs _ _ _ _ _ Hfs1).
        -- intros Hmw.
           apply merge_and_write_cases in Hmw as (Hd' & Ho' & Hq' & Hr);
             [|by rewrite Hfs].
           repeat split; [congruence|congruence|lia|lia|].
           destruct r as [o|e].
           ++ destruct Hr as (-> & new & f' & H4 & Henc & H5 & H6 & H7).
              right. apply (updated_by_fs _ _ _ _ _ _ _ Hfs).
              exists (t :: ts), new, f'.
              apply Nat.ltb_ge in Hlen. repeat split; try done; by apply H7.
           ++ by apply (files_after_raise_fs _ _ _ _ _ Hfs).
      * unfold bind, print, ret. intros [= <- <-].
        destruct w1; cbn in *. repeat split; [done|done|lia|lia|by left].
    + intros [= <- <-]. repeat split; [done|done|lia|lia|by left].
Qed.

Lemma process_file_cases file_path retry_limit w r w' :
  process_file file_path retry_limit w = (r, w') ->
  dirs w' = dirs w /\ use_ollama w' = use_ollama w
  /\ api_queries w <= api_queries w'
  /\ api_queries w' <= api_queries w + N.of_nat retry_limit
  /\ match r with
     | Raise e => files_after_raise file_path e w w'
     | Ok o =>
         exists f,
           fs w !! file_path = Some f /\ readable f = true
           /\ ((o = {| file := file_path; status := existing_tags;
                       tags := extract_existing_tags (data f) |}
                /\ (9 <= length (extract_existing_tags (data f)))%nat
                /\ fs w' = fs w /\ api_queries w' = api_queries w)
               \/ ((length (extract_existing_tags (data f)) < 9)%nat
                   /\ ((o = {| file := file_path; status := failed; tags := [] |}
                        /\ fs w' = fs w)
                       \/ updated_by file_path (data f)
                            (extract_existing_tags (data f)) w w' o)))
     end.
Proof.
  destruct (fs w !! file_path) as [f|] eqn:Hf.
  - destruct (readable f) eqn:Hr.
    + destruct (Nat.ltb_spec (length (extract_existing_tags (data f))) 9)
        as [Hlen|Hlen].
      * rewrite (process_file_needs_tags _ _ _ _ Hf Hr Hlen). intros Hloop.
        assert (Hfs0 : fs (printed [ProcessingFile file_path;
                                    LessThan9ExistingTags] w) = fs w)
          by (by destruct w).
        apply retry_loop_cases in Hloop as (Hd & Ho & Hq1 & Hq2 & Hcase);
          [|by rewrite Hfs0, Hf].
        destruct w; cbn in Hd, Ho, Hq1, Hq2. repeat split; try done.
        destruct r as [o0|e].
        -- exists f. repeat split; try done.
           right. split; [done|].
           destruct Hcase as [[-> Hfs']|Hup]; [left; split; [done|congruence]|].
           right. by apply (updated_by_fs _ _ _ _ _ _ _ Hfs0).
        -- by apply (files_after_raise_fs _ _ _ _ _ Hfs0).
      * rewrite (process_file_skips _ _ _ _ Hf Hr Hlen). intros [= <- <-].
        destruct w; cbn in *. repeat split; try done; try lia.
        exists f. repeat split; try done. left. by repeat split.
    + destruct w as [files ds b o q t st nw out]. cbn [fs] in Hf.
      run. rewrite Hf, Hr. intros [= <- <-]. cbn.
      repeat split; try lia. by left.
  - destruct w as [files ds b o q t st nw out]. cbn [fs] in Hf.
    run. rewrite Hf. intros [= <- <-]. cbn.
    repeat split; try lia. by left.
Qed.

Lemma process_file_others file_path retry_limit w r w' p :
  process_file file_path retry_limit w = (r, w') ->
  p <> file_path -> fs w' !! p = fs w !! p.
Proof.
  intros H Hp. apply process_file_cases in H as (_ & _ & _ & _ & Hr).
  destruct r as [o|e].
  - destruct Hr as (f & _ & _ & [(_ & _ & -> & _)|(_ & [[_ ->]|Hup])]); try done.
    destruct Hup as (sug & new & f' & _ & _ & _ & _ & _ & _ & -> & _).
    by rewrite lookup_insert_ne.
  - destruct Hr as [->|(_ & f' & _ & _ & ->)]; [done|].
    by rewrite lookup_insert_ne.
Qed.

Lemma process_file_names_file file_path retry_limit w o w' :
  process_file file_path retry_limit w = (Ok o, w') -> file o = file_path.
Proof.
  intros H. apply process_file_cases in H as (_ & _ & _ & _ & f & _ & _ & Hc).
  destruct Hc as [(-> & _)|(_ & [[-> _]|Hup])]; try done.
  by destruct Hup as (sug & new & f' & _ & _ & -> & _).
Qed.

(** X10.  Whatever the backend answers and however [process_file] ends, with
    an outcome or with an exception, it leaves every file but its own as it
    was, does not touch the configuration, and asks the backend at most
    [retry_limit] times. *)
Theorem process_file_within (file_path : str) (retry_limit : nat)
  (w w' : world) (r : result outcome) :
  process_file file_path retry_limit w = (r, w') ->
  within file_path retry_limit w w'.
Proof.
  intros H.
  pose proof (process_file_cases _ _ _ _ _ H) as (Hd & Ho & Hq1 & Hq2 & _).
  unfold within. repeat split; try done.
  intros p Hp. by apply (process_file_others _ _ _ _ _ p H).
Qed.

Lemma process_file_within_witness :
  let w := Examples.one_note Examples.tagged_note [Examples.says "#c #d"] true in
  within Examples.a_md 3 w (snd (process_file Examples.a_md 3 w)).
Proof.
  intros w.
  apply (process_file_within Examples.a_md 3 w _
           (fst (process_file Examples.a_md 3 w))).
  by vm_compute.
Defined.

(** X11.  The outcome that [process_file] returns names its file and is one
    of three: [failed] with no tags and no file changed; [existing_tags]
    with the nine or more tags found on the note, no file changed and no
    query made; or [tags_updated] with one to ten tags, each beginning with
    [#], where the file now holds the rewrite of its old text with exactly
    these tags, joined by single spaces. *)
Theorem process_file_outcome (file_path : str) (retry_limit : nat)
  (w w' : world) (o : outcome) :
  process_file file_path retry_limit w = (Ok o, w') ->
  file o = file_path
  /\ exists f,
       fs w !! file_path = Some f /\ readable f = true
       /\ match status o with
          | failed => tags o = [] /\ fs w' = fs w
          | existing_tags =>
              tags o = extract_existing_tags (data f)
              /\ (9 <= length (tags o))%nat
              /\ fs w' = fs w /\ api_queries w' = api_queries w
          | tags_updated =>
              tags o <> [] /\ (length (tags o) <= 10)%nat
              /\ Forall (fun t => startswith t [hash] = true) (tags o)
              /\ writable f = true
              /\ exists f',
                   rewrite_content (data f) (join [space] (tags o))
                     = Ok (data f')
                   /\ fs w' = <[file_path := f']> (fs w)
          end.
Proof.
  intros H. apply process_file_cases in H as (_ & _ & _ & _ & f & Hf & Hr & Hcase).
  destruct Hcase as [(-> & Hlen & Hfs & Hq)|(_ & [[-> Hfs]|Hup])].
  - split; [done|]. exists f. by repeat split.
  - split; [done|]. exists f. by repeat split.
  - destruct Hup as (sug & new & f' & Hne & Hlen & -> & Hnew & _ & Hdata & Hfs & Hw).
    split; [done|]. exists f. cbn [status tags]. repeat split; try done.
    + by apply merge_tags_some.
    + unfold merge_tags. rewrite length_take. lia.
    + unfold merge_tags. apply Forall_take, List.Forall_map, Forall_forall.
      intros t _. apply correct_tag_prefixed.
    + by apply (Hw f).
    + exists f'. by rewrite Hdata.
Qed.

Lemma process_file_outcome_witness :
  let w := Examples.one_note Examples.tagged_note [Examples.says "#c #d"] true in
  exists o, fst (process_file Examples.a_md 3 w) = Ok o
            /\ file o = Examples.a_md.
Proof.
  intros w.
  exists {| file := Examples.a_md; status := tags_updated;
            tags := [U "#a"; U "#b"; U "#c"; U "#d"] |}.
  split; [by vm_compute|].
  refine (proj1 (process_file_outcome Examples.a_md 3 w
                   (snd (process_file Examples.a_md 3 w)) _ _)).
  by vm_compute.
Defined.



Lemma retry_loop_after_oversized file_path content existing over :
  forall w rest n,
    backend w = over ++ rest ->
    forallb oversized over = true ->
    exists w1,
      retry_loop file_path content existing (length over + n) w
        = retry_loop file_path content existing n w1
      /\ fs w1 = fs w /\ use_ollama w1 = use_ollama w
      /\ api_queries w1 = api_queries w + N.of_nat (length over)
      /\ backend w1 = rest.
Proof.
  induction over as [|r over IH]; intros w rest n Hb Hall.
  - exists w. cbn. repeat split; [lia|done].
  - cbn [forallb] in Hall. apply andb_prop in Hall as [Hr Hall].
    destruct r as [|status_code [text tokens|e]]; try done.
    destruct (oversized_suggested (use_ollama w) _ _ _ Hr) as [-> Hlen].
    destruct (get_suggested_tags_generated content w text tokens
                (over ++ rest) Hb) as (w1 & Hcall & Hfs & _ & Ho & Hq & Hb1).
    destruct (IH (printed [WarningMoreThan10Tags] w1) rest n)
      as (w2 & Hloop & Hfs2 & Ho2 & Hq2 & Hb2); [by destruct w1|done|].
    exists w2. split.
    + cbn [length Nat.add retry_loop]. unfold bind at 1. rewrite Hcall.
      destruct (suggested_of (use_ollama w) text) as [|t ts]; [done|].
      rewrite Hlen. unfold bind at 1. exact Hloop.
    + rewrite Hfs2, Ho2, Hq2, Hb2. destruct w1; cbn in *.
      repeat split; [done|done|lia].
Qed.

(** X13.  The retry pays off: when fewer than [retry_limit] answers with
    more than ten tags are followed by an answer with one to ten tags,
    [process_file] goes on to merge and write these tags, after one query
    per answer and with the files untouched until then. *)
Theorem process_file_retry_recovers (w : world) (file_path : str)
  (retry_limit : nat) (f : disk_file) (over rest : list reply)
  (text : str) (tokens : Q) :
  fs w !! file_path = Some f ->
  readable f = true ->
  (length (extract_existing_tags (data f)) < 9)%nat ->
  backend w = over ++ Response 200 (Generated text tokens) :: rest ->
  forallb oversized over = true ->
  (length over < retry_limit)%nat ->
  suggested_of (use_ollama w) text <> [] ->
  (length (suggested_of (use_ollama w) text) <= 10)%nat ->
  exists w1,
    process_file file_path retry_limit w
    = merge_and_write file_path (data f) (extract_existing_tags (data f))
        (suggested_of (use_ollama w) text) w1
    /\ fs w1 = fs w
    /\ api_queries w1 = api_queries w + N.of_nat (length over) + 1
    /\ backend w1 = rest.
Proof.
  intros Hf Hr Hfew Hb Hover Hlim Hne Hlen.
  rewrite (process_file_needs_tags _ _ _ _ Hf Hr Hfew).
  replace retry_limit
    with (length over + S (retry_limit - S (length over)))%nat by lia.
  destruct (retry_loop_after_oversized file_path (data f)
              (extract_existing_tags (data f)) over
              (printed [ProcessingFile file_path; LessThan9ExistingTags] w)
              (Response 200 (Generated text tokens) :: rest)
              (S (retry_limit - S (length over))))
    as (w1 & Hloop & Hfs1 & Ho1 & Hq1 & Hb1); [by destruct w|done|].
  destruct (get_suggested_tags_generated (data f) w1 text tokens rest Hb1)
    as (w2 & Hcall & Hfs2 & _ & _ & Hq2 & Hb2).
  assert (Hsame : use_ollama w1 = use_ollama w)
    by (rewrite Ho1; by destruct w).
  rewrite Hsame in Hcall.
  exists w2. split.
  - rewrite Hloop. by apply retry_loop_accepts.
  - rewrite Hfs2, Hq2, Hb2, Hfs1, Hq1. destruct w; cbn. by repeat split.
Qed.

Lemma process_file_retry_recovers_witness :
  let many := Examples.says "#1 #2 #3 #4 #5 #6 #7 #8 #9 #10 #11" in
  let w := Examples.one_note Examples.plain_note
             [many; many; Examples.says "#a #b"] true in
  exists w1,
    process_file Examples.a_md 3 w
    = merge_and_write Examples.a_md Examples.plain_note
        (extract_existing_tags Examples.plain_note) [U "#a"; U "#b"] w1
    /\ fs w1 = fs w /\ api_queries w1 = 0 + 2 + 1 /\ backend w1 = [].
Proof.
  intros many w.
  apply (process_file_retry_recovers w Examples.a_md 3
           (Examples.text_file Examples.plain_note) [many; many] []
           (U "#a #b") 0); try reflexivity.
  - vm_compute. lia.
  - cbn. lia.
  - discriminate.
  - vm_compute. lia.
Defined.

(** X14.  A note that [process_file] has updated to nine or ten well-formed
    tags is skipped by the next run: if the outcome [tags_updated] carries
    the tags [#a, #b, ...] (names without blanks, [#] or backslashes, at
    least nine), then [process_file] on the world it left returns
    [existing_tags] with the names [a, b, ...] and only prints. *)
Theorem process_file_second_run (file_path : str) (n m : nat)
  (w w1 : world) (o : outcome) (names : list str) :
  process_file file_path n w = (Ok o, w1) ->
  status o = tags_updated ->
  tags o = map (cons hash) names ->
  Forall (fun t => token_name t = true) names ->
  no_backslash (tokens names) = true ->
  (9 <= length names)%nat ->
  process_file file_path m w1
  = (Ok {| file := file_path; status := existing_tags; tags := names |},
     printed [ProcessingFile file_path; ExistingTagsFound (join [space] names)]
       w1).
Proof.
  intros Hrun Hst Htags Hnames Hplain Hnine.
  assert (Hne : names <> []) by (intros ->; cbn in Hnine; lia).
  apply process_file_cases in Hrun as (_ & _ & _ & _ & f & Hf & Hr & Hcase).
  destruct Hcase as [(-> & _)|(_ & [[-> _]|Hup])]; try done.
  destruct Hup as (sug & new & f' & _ & _ & -> & Hnew & _ & Hdata & Hfs & Hw).
  cbn [tags] in Htags. rewrite Htags in Hnew.
  destruct (rewrite_extract_names (data f) names Hne Hnames Hplain)
    as (new' & Hnew' & Hextract).
  unfold tokens in Hnew'. rewrite Hnew in Hnew'. injection Hnew' as <-.
  assert (Hf1 : fs w1 !! file_path = Some f')
    by (rewrite Hfs; apply lookup_insert_eq).
  destruct (Hw f Hf) as [_ Hr'].
  pose proof (process_file_skips w1 file_path m f' Hf1) as Hskip.
  rewrite Hdata, Hextract in Hskip. apply Hskip; [congruence|done].
Qed.

Lemma process_file_second_run_witness :
  let w := Examples.one_note Examples.plain_note [Examples.nine_tags_reply] true in
  let w1 := snd (process_file Examples.a_md 3 w) in
  process_file Examples.a_md 3 w1
  = (Ok {| file := Examples.a_md; status := existing_tags;
           tags := Examples.nine_names |},
     printed [ProcessingFile Examples.a_md;
              ExistingTagsFound (join [space] Examples.nine_names)] w1).
Proof.
  intros w w1.
  apply (process_file_second_run Examples.a_md 3 3 w w1
           {| file := Examples.a_md; status := tags_updated;
              tags := map (cons hash) Examples.nine_names |}
           Examples.nine_names).
  - by vm_compute.
  - reflexivity.
  - reflexivity.
  - repeat constructor.
  - reflexivity.
  - cbn. lia.
Defined.

(** ** The merge, once more *)

Lemma correct_tag_bare t : bare_tag t -> correct_tag t = hash :: t.
Proof.
  intros (Hne & Hstrip & Hhash & _). unfold correct_tag.
  destruct t as [|c t]; [done|].
  cbn [startswith forallb] in *. apply andb_prop in Hhash as [Hc _].
  destruct (c =? hash); [done|]. cbn [andb]. by rewrite Hstrip.
Qed.

(** X15.  The tags that were on the note are never lost in the merge: as
    long as there are at most ten, the merged sequence begins with them, in
    their order, each with one [#] put in front. *)
Theorem merge_tags_keeps_existing (content : str) (suggested : list str) :
  (length (extract_existing_tags content) <= 10)%nat ->
  exists added,
    merge_tags (extract_existing_tags content) suggested
    = map (cons hash) (extract_existing_tags content) ++ added.
Proof.
  intros Hlen. unfold merge_tags. rewrite map_app.
  assert (Hmap : map correct_tag (extract_existing_tags content)
                 = map (cons hash) (extract_existing_tags content)).
  { clear Hlen.
    induction (extract_bare content) as [|t l Ht _ IH]; [done|].
    cbn [map]. by rewrite (correct_tag_bare _ Ht), IH. }
  rewrite Hmap. eexists.
  rewrite take_app_ge by (rewrite length_map; lia). reflexivity.
Qed.

Lemma merge_tags_keeps_existing_witness :
  exists added,
    merge_tags (extract_existing_tags Examples.tagged_note) [U "#b"; U "#c"]
    = map (cons hash) (extract_existing_tags Examples.tagged_note) ++ added.
Proof.
  apply (merge_tags_keeps_existing Examples.tagged_note [U "#b"; U "#c"]).
  vm_compute. lia.
Defined.

(** ** The statistics *)

Lemma count_status_total l :
  (count_status tags_updated l + count_status existing_tags l
   + count_status failed l = length l)%nat.
Proof.
  unfold count_status. induction l as [|o l IH]; [done|].
  cbn [List.filter length]. destruct (status o); cbn [status_eqb length]; lia.
Qed.

Lemma print_statistics_lines (processed_files : list outcome) (w : world) :
  processed_files <> [] ->
  print_statistics processed_files w
    = (Ok tt, printed (statistics_lines processed_files w) w).
Proof.
  intros Hne.
  destruct processed_files as [|o l]; [done|].
  destruct w as [files ds b ol q t st nw out].
  unfold print_statistics, truediv, bind, print, ret, get_use_ollama,
    printed, statistics_lines, run_time_of.
  cbn [length fs dirs backend use_ollama api_queries total_tokens start_time
       now stdout set_stdout].
  destruct ol; cbn [negb]; unfold print; cbn [stdout set_stdout];
    by rewrite <- !app_assoc.
Qed.

(** X16.  With at least one outcome [print_statistics] does not fail: it
    prints the eleven lines of the report, with the mean run time per file
    and, for the Claude backend only, the estimated cost, and changes
    nothing else; the three counts it prints add up to the number of files. *)
Theorem print_statistics_reports (processed_files : list outcome) (w : world) :
  processed_files <> [] ->
  print_statistics processed_files w
    = (Ok tt, printed (statistics_lines processed_files w) w)
  /\ (count_status tags_updated processed_files
      + count_status existing_tags processed_files
      + count_status failed processed_files
      = length processed_files)%nat.
Proof.
  intros Hne. split.
  - by apply print_statistics_lines.
  - apply count_status_total.
Qed.

Lemma print_statistics_reports_witness :
  let l := [{| file := Examples.a_md; status := failed; tags := [] |}] in
  let w := Examples.one_note Examples.plain_note [] true in
  print_statistics l w = (Ok tt, printed (statistics_lines l w) w).
Proof.
  intros l w.
  refine (proj1 (print_statistics_reports l w _)). discriminate.
Defined.

(** ** The walk *)

Lemma endswith_app a b s : endswith b s = true -> endswith (a ++ b) s = true.
Proof.
  unfold endswith. rewrite rev_app_distr. apply startswith_app.
Qed.

Lemma path_join_suffix a b s :
  endswith b s = true -> endswith (path_join a b) s = true.
Proof.
  intros H. unfold path_join.
  destruct (startswith b [slash]); [done|].
  destruct (negb (truthy a) || endswith a [slash]).
  - by apply endswith_app.
  - change (a ++ slash :: b) with (a ++ [slash] ++ b).
    rewrite app_assoc. by apply endswith_app.
Qed.

Lemma md_paths_markdown t :
  forall root,
    Forall (fun p => endswith p (U ".md") = true) (md_paths t root).
Proof.
  induction t as [name subdirs files IHsub] using dirtree_forall_ind.
  intros root. cbn [md_paths]. apply Forall_app. split.
  - apply List.Forall_map, Forall_forall.
    intros f [_ Hf]%list_elem_of_In%filter_In. by apply path_join_suffix.
  - induction IHsub as [|sub l Hsub _ IHl]; [constructor|].
    destruct sub as [d sd fl]. destruct (keep_dir d); [|exact IHl].
    apply Forall_app. split; [apply Hsub|exact IHl].
Qed.

(** X17.  [scan_directory] hands to [process_file] the files whose name ends
    in [.md] and no others: its nested loops process the paths of
    [md_paths] one after the other, and every one of these ends in [.md]. *)
Theorem walk_only_markdown (t : dirtree) (root : str)
  (processed_files : list outcome) (w : world) :
  walk t root processed_files w
    = process_all (md_paths t root) processed_files w
  /\ Forall (fun p => endswith p (U ".md") = true) (md_paths t root).
Proof. split; [apply walk_flat|apply md_paths_markdown]. Qed.

Lemma excluded_not_kept d :
  startswith d [dot] = true \/ In d excluded_dirs -> keep_dir d = false.
Proof.
  unfold keep_dir. intros [->|Hin]; [done|].
  assert (H : contains excluded_dirs d = true).
  { unfold contains. apply existsb_exists. exists d. split; [done|].
    unfold eqb. by apply bool_decide_eq_true. }
  rewrite H. by rewrite andb_false_r.
Qed.

(** X18.  A sub-directory whose name begins with a dot or is one of the six
    excluded names is never entered: with it or without it, and whatever it
    contains, the walk does the same. *)
Theorem walk_skips_excluded (name d : str) (l1 l2 sd : list dirtree)
  (files fl : list str) (root : str) (processed_files : list outcome)
  (w : world) :
  startswith d [dot] = true \/ In d excluded_dirs ->
  walk (Dir name (l1 ++ Dir d sd fl :: l2) files) root processed_files w
  = walk (Dir name (l1 ++ l2) files) root processed_files w.
Proof.
  intros Hd%excluded_not_kept. rewrite !walk_flat. f_equal.
  cbn [md_paths]. f_equal.
  induction l1 as [|[d1 sd1 fl1] l1 IH].
  - cbn [app]. by rewrite Hd.
  - cbn [app]. destruct (keep_dir d1); [by rewrite IH|exact IH].
Qed.

Lemma walk_skips_excluded_witness :
  let hidden := Dir (U ".obsidian") [] [U "plugins.md"] in
  let w := Examples.one_note Examples.plain_note [] true in
  walk (Dir [] ([] ++ hidden :: []) [U "a.md"]) Examples.vault [] w
  = walk (Dir [] ([] ++ []) [U "a.md"]) Examples.vault [] w.
Proof.
  intros hidden w.
  apply (walk_skips_excluded [] (U ".obsidian") [] [] [] [U "a.md"]
           [U "plugins.md"] Examples.vault [] w).
  left. reflexivity.
Defined.

Lemma print_statistics_frame l w :
  fs (snd (print_statistics l w)) = fs w
  /\ api_queries (snd (print_statistics l w)) = api_queries w.
Proof.
  destruct w as [files ds b ol q t st nw out].
  unfold print_statistics, truediv, bind, print, ret, raise, get_use_ollama.
  destruct l as [|o l]; [done|]. by destruct ol.
Qed.

Lemma process_all_cases paths :
  forall acc w r w',
    process_all paths acc w = (r, w') ->
    (forall p, p ∉ paths -> fs w' !! p = fs w !! p)
    /\ api_queries w <= api_queries w'
    /\ api_queries w' <= api_queries w + 3 * N.of_nat (length paths)
    /\ match r with
       | Ok outcomes => map file outcomes = map file acc ++ paths
       | Raise _ => True
       end.
Proof.
  induction paths as [|p paths IH]; intros acc w r w'.
  - cbn [process_all]. unfold ret. intros [= <- <-].
    repeat split; [lia..|by rewrite app_nil_r].
  - cbn [process_all]. unfold bind.
    destruct (process_file p default_retry_limit w) as [[o|e] w1] eqn:Hp.
    + intros Hrest. apply IH in Hrest as (Hfs & Hq1 & Hq2 & Hr).
      pose proof (process_file_cases _ _ _ _ _ Hp) as (_ & _ & Hq3 & Hq4 & _).
      unfold default_retry_limit in Hq4. cbn [length].
      repeat split; [|lia|lia|].
      * intros p' [Hne Hnot]%not_elem_of_cons.
        rewrite (Hfs p' Hnot). by apply (process_file_others _ _ _ _ _ _ Hp).
      * destruct r as [outcomes|e]; [|done].
        rewrite Hr, map_app. cbn [map].
        rewrite (process_file_names_file _ _ _ _ _ Hp).
        by rewrite <- app_assoc.
    + intros [= <- <-].
      pose proof (process_file_cases _ _ _ _ _ Hp) as (_ & _ & Hq3 & Hq4 & _).
      unfold default_retry_limit in Hq4. cbn [length].
      repeat split; [|lia|lia].
      intros p' [Hne _]%not_elem_of_cons.
      by apply (process_file_others _ _ _ _ _ _ Hp).
Qed.

(** X19.  A scan leaves every file that is not one of the markdown files of
    the walk as it was, and makes at most three queries for each markdown
    file, however it ends. *)
Theorem scan_directory_frame (directory : str) (t : dirtree) (w : world) :
  dirs w !! directory = Some t ->
  (forall p, p ∉ md_paths t directory ->
             fs (snd (scan_directory directory w)) !! p = fs w !! p)
  /\ api_queries w <= api_queries (snd (scan_directory directory w))
  /\ api_queries (snd (scan_directory directory w))
     <= api_queries w + 3 * N.of_nat (length (md_paths t directory)).
Proof.
  intros Ht.
  assert (Hscan : snd (scan_directory directory w)
                  = match process_all (md_paths t directory) []
                            (printed [ScanningDirectory directory] w) with
                    | (Ok l, w1) => snd (print_statistics l w1)
                    | (Raise _, w1) => w1
                    end).
  { unfold scan_directory, bind at 1 2, print, walk_directory.
    change (set_stdout (stdout w ++ [ScanningDirectory directory]) w)
      with (printed [ScanningDirectory directory] w).
    replace (dirs (printed [ScanningDirectory directory] w) !! directory)
      with (Some t) by (by destruct w).
    rewrite walk_flat.
    by destruct (process_all _ _ _) as [[l|e] w1]. }
  rewrite Hscan.
  destruct (process_all _ _ _) as [r w1] eqn:Hall.
  apply process_all_cases in Hall as (Hfs & Hq1 & Hq2 & _).
  assert (Hw : fs (printed [ScanningDirectory directory] w) = fs w
               /\ api_queries (printed [ScanningDirectory directory] w)
                  = api_queries w) by (by destruct w).
  destruct Hw as [Hw1 Hw2]. rewrite Hw1 in Hfs. rewrite Hw2 in Hq1, Hq2.
  destruct r as [l|e]; [|done].
  destruct (print_statistics_frame l w1) as [-> ->]. done.
Qed.

Lemma scan_directory_frame_witness :
  (forall p, p ∉ md_paths (Dir [] [] [U "a.md"; U "b.md"]) Examples.vault ->
             fs (snd (scan_directory Examples.vault Examples.locked_vault)) !! p
             = fs Examples.locked_vault !! p)
  /\ api_queries Examples.locked_vault
     <= api_queries (snd (scan_directory Examples.vault Examples.locked_vault))
  /\ api_queries (snd (scan_directory Examples.vault Examples.locked_vault))
     <= api_queries Examples.locked_vault + 3 * N.of_nat
          (length (md_paths (Dir [] [] [U "a.md"; U "b.md"]) Examples.vault)).
Proof.
  apply (scan_directory_frame Examples.vault
           (Dir [] [] [U "a.md"; U "b.md"]) Examples.locked_vault).
  reflexivity.
Defined.

(** X20.  A walk that runs through gives one outcome for each markdown file,
    in the order of the walk, and each outcome names its file. *)
Theorem walk_directory_outcomes (directory : str) (t : dirtree)
  (w w' : world) (outcomes : list outcome) :
  dirs w !! directory = Some t ->
  walk_directory directory w = (Ok outcomes, w') ->
  map file outcomes = md_paths t directory.
Proof.
  intros Ht. unfold walk_directory. rewrite Ht, walk_flat. intros Hall.
  by apply process_all_cases in Hall as (_ & _ & _ & Hr).
Qed.

Lemma walk_directory_outcomes_witness :
  let w := Examples.one_note Examples.nine_tags_note [] false in
  map file [{| file := Examples.a_md; status := existing_tags;
               tags := Examples.nine_names |}]
  = md_paths (Dir [] [] [U "a.md"]) Examples.vault.
Proof.
  intros w.
  apply (walk_directory_outcomes Examples.vault (Dir [] [] [U "a.md"]) w
           (snd (walk_directory Examples.vault w))).
  - reflexivity.
  - by vm_compute.
Defined.

Lemma process_all_skips paths :
  forall acc w,
    (forall p, p ∈ paths ->
       exists f, fs w !! p = Some f /\ readable f = true
                 /\ (9 <= length (extract_existing_tags (data f)))%nat) ->
    exists outcomes w',
      process_all paths acc w = (Ok (acc ++ outcomes), w')
      /\ length outcomes = length paths
      /\ Forall (fun o => status o = existing_tags) outcomes
      /\ fs w' = fs w /\ api_queries w' = api_queries w
      /\ backend w' = backend w.
Proof.
  induction paths as [|p paths IH]; intros acc w Hall.
  - exists [], w. cbn [process_all]. unfold ret. by rewrite app_nil_r.
  - destruct (Hall p) as (f & Hf & Hr & Hlen); [by left|].
    cbn [process_all]. unfold bind.
    rewrite (process_file_skips _ _ _ _ Hf Hr Hlen).
    set (w1 := printed _ w).
    destruct (IH (acc ++ [{| file := p; status := existing_tags;
                             tags := extract_existing_tags (data f) |}]) w1)
      as (outcomes & w' & Hrun & Hn & Hst & Hfs & Hq & Hb).
    { intros p' Hp'. destruct (Hall p') as (f' & Hf' & H'); [by right|].
      exists f'. split; [|done]. unfold w1. by destruct w. }
    eexists (_ :: outcomes), w'. rewrite Hrun, <- app_assoc. cbn [app length].
    assert (Hw1 : fs w1 = fs w /\ api_queries w1 = api_queries w
                  /\ backend w1 = backend w) by (unfold w1; by destruct w).
    destruct Hw1 as (Hfs1 & Hq1 & Hb1).
    rewrite Hfs, Hq, Hb, Hn, Hfs1, Hq1, Hb1.
    repeat split. by constructor.
Qed.

(** X21.  A scan over a vault in which every markdown file carries nine or
    more tags [#a #b ...] on a tag line that the parser can find, the first
    line of the note that begins with [Tags:] behind a line break, runs
    through and is idle: it changes no file, makes no query and consumes no
    reply. *)
Theorem scan_directory_all_tagged (directory : str) (t : dirtree) (w : world) :
  dirs w !! directory = Some t ->
  md_paths t directory <> [] ->
  (forall p, p ∈ md_paths t directory ->
     exists f names,
       fs w !! p = Some f /\ readable f = true
       /\ carries_tags (data f) names /\ (9 <= length names)%nat) ->
  exists w',
    scan_directory directory w = (Ok tt, w')
    /\ fs w' = fs w /\ api_queries w' = api_queries w
    /\ backend w' = backend w.
Proof.
  intros Ht Hne Hall.
  destruct (process_all_skips (md_paths t directory) []
              (printed [ScanningDirectory directory] w))
    as (outcomes & w1 & Hrun & Hn & _ & Hfs & Hq & Hb).
  { intros p Hp. destruct (Hall p Hp) as (f & names & Hf & Hr & Hc & Hlen).
    exists f. split; [by destruct w|]. split; [done|].
    rewrite (extract_carried _ names); [done| |done].
    intros ->. cbn in Hlen. lia. }
  assert (Houtcomes : outcomes <> []).
  { intros ->. cbn in Hn. by destruct (md_paths t directory). }
  eexists. split.
  - unfold scan_directory, bind at 1 2, print, walk_directory.
    change (set_stdout (stdout w ++ [ScanningDirectory directory]) w)
      with (printed [ScanningDirectory directory] w).
    replace (dirs (printed [ScanningDirectory directory] w) !! directory)
      with (Some t) by (by destruct w).
    rewrite walk_flat, Hrun. cbn [app].
    by rewrite (print_statistics_lines _ _ Houtcomes).
  - destruct w1, w; cbn in *. by repeat split.
Qed.

Lemma scan_directory_all_tagged_witness :
  let w := Examples.one_note Examples.nine_tags_note [] false in
  exists w',
    scan_directory Examples.vault w = (Ok tt, w')
    /\ fs w' = fs w /\ api_queries w' = api_queries w
    /\ backend w' = backend w.
Proof.
  intros w.
  apply (scan_directory_all_tagged Examples.vault (Dir [] [] [U "a.md"]) w).
  - reflexivity.
  - discriminate.
  - intros p Hp.
    exists (Examples.text_file Examples.nine_tags_note), Examples.nine_names.
    apply list_elem_of_In in Hp. destruct Hp as [<-|[]].
    split; [reflexivity|]. split; [reflexivity|]. split; [|cbn; lia].
    split; [repeat constructor|].
    by exists (U "note"), [space], [].
Defined.
